(** * Bulk Image Resizer: a shallow embedding of [src/main.py]

    The development follows the source file from the bottom up:

    - [PyNum]: the Python numeric operations the worker uses
      ([int / int], [int * float], [int(float)]) over IEEE-754 binary64;
    - [PyStr]: the string and [pathlib] operations ([lower], [strip],
      [isdigit], [int(str)], [suffix], glob matching);
    - [Worker]: [Worker.run] as a program in a small state, exception and
      output monad over an abstract platform (file system and imaging
      library);
    - [MainWindow]: the validation performed by [start_conversion];
    - [Sim]: a small concrete platform on which the model runs;
    - [Location], [Spec]: the vocabulary of the properties;
    - [Slots]: the slots the signals of the worker are connected to;
    - [Terms], [Scenes]: further vocabulary and simulated scenes.

    The properties come next: the rounding analysis of the size and
    progress computations ([PyNumFacts]), glob matching ([PyStrFacts]), the
    worker ([WorkerFacts]), the main window ([MainWindowFacts]) and runs on
    the simulated platform ([Runs]); then the sharp form of the rounding
    analysis ([ScalingFacts]), the progress values ([ProgressFacts]), the
    processing of one file ([ProcessFacts]), whole runs ([RunFacts]), the
    enumeration ([ListingFacts]), the window after a run ([WindowFacts]) and
    further runs ([MoreRuns]). *)

From Stdlib Require Import ZArith List String Ascii Bool Lia Sorted.
From Stdlib Require Import DecimalString.
From Stdlib Require Import Floats.SpecFloat Floats.PrimFloat Floats.FloatOps.
From Stdlib Require Import Numbers.Cyclic.Int63.Uint63.
Import ListNotations.

Local Open Scope Z_scope.

(** ** Python exceptions

    Only instances of [Exception] are modelled: these are what the two
    [except Exception as e] handlers of [Worker.run] catch.  [str e] is the
    text the handlers interpolate into the log line. *)
Inductive exn : Type :=
| PyExc (cls : string) (msg : string).

Definition str (e : exn) : string :=
  match e with PyExc _ msg => msg end.

Definition result (A : Type) : Type := (exn + A)%type.

Module PyNum.

(** Python's [float] is IEEE-754 binary64. *)
Definition prec : Z := 53.
Definition emax : Z := 1024.

Definition float : Type := spec_float.

(** [float(z)], the conversion applied to the [int] operand of
    [int * float]: round to nearest, ties to even; [OverflowError] when the
    magnitude exceeds the binary64 range. *)
Definition float_of_int (z : Z) : result float :=
  match binary_normalize prec emax z 0 false with
  | S754_infinity _ =>
      inl (PyExc "OverflowError" "int too large to convert to float")
  | f => inr f
  end.

(** [a / b] on two [int]s (true division): the correctly rounded quotient of
    the two integers. *)
Definition int_truediv (a b : Z) : result float :=
  if b =? 0 then inl (PyExc "ZeroDivisionError" "division by zero")
  else if a =? 0 then inr (S754_zero (b <? 0))
  else
    let '(q, e, l) := SFdiv_core_binary prec emax (Z.abs a) 0 (Z.abs b) 0 in
    match binary_round_aux prec emax (xorb (a <? 0) (b <? 0)) q e l with
    | S754_infinity _ =>
        inl (PyExc "OverflowError"
                   "integer division result too large for a float")
    | f => inr f
    end.

(** [x * y] on two [float]s; it never raises. *)
Definition float_mul (x y : float) : float := SFmul prec emax x y.

(** [z * y] with [z : int] and [y : float]. *)
Definition int_mul_float (z : Z) (y : float) : result float :=
  match float_of_int z with
  | inl e => inl e
  | inr x => inr (float_mul x y)
  end.

(** [x * z] with [x : float] and [z : int]. *)
Definition float_mul_int (x : float) (z : Z) : result float :=
  match float_of_int z with
  | inl e => inl e
  | inr y => inr (float_mul x y)
  end.

(** [int(x)]: truncation toward zero. *)
Definition int_of_float (x : float) : result Z :=
  match x with
  | S754_zero _ => inr 0
  | S754_infinity _ =>
      inl (PyExc "OverflowError" "cannot convert float infinity to integer")
  | S754_nan =>
      inl (PyExc "ValueError" "cannot convert float NaN to integer")
  | S754_finite s m e =>
      let a := match e with
               | Zneg p => Z.pos m / 2 ^ Z.pos p
               | _ => Z.pos m * 2 ^ e
               end in
      inr (if s then - a else a)
  end.

End PyNum.

(** Sequencing of computations that may raise. *)
Notation "'let?' x ':=' e 'in' k" :=
  (match e with inl err => inl err | inr x => k end)
  (at level 10, x name, e at level 100, k at level 200).

(** ** Python strings and [pathlib] names

    A [str] is modelled by a [string] whose characters are read as the code
    points U+0000 to U+00FF; on that range the character classes below are
    those of Python's Unicode database. *)
Module PyStr.

Local Open Scope string_scope.
Local Open Scope N_scope.

Definition code (c : ascii) : N := N_of_ascii c.

(** [chr(n)] as a one-character string. *)
Definition chr (n : N) : string := String (ascii_of_N n) EmptyString.

Definition in_range (lo hi n : N) : bool := (lo <=? n) && (n <=? hi).

(** [c.lower()] *)
Definition lower_char (c : ascii) : ascii :=
  let n := code c in
  if in_range 65 90 n || (in_range 192 222 n && negb (n =? 215))
  then ascii_of_N (n + 32) else c.

(** [s.lower()] *)
Fixpoint lower (s : string) : string :=
  match s with
  | EmptyString => EmptyString
  | String c r => String (lower_char c) (lower r)
  end.

(** [c.isspace()] *)
Definition isspace_char (c : ascii) : bool :=
  let n := code c in
  in_range 9 13 n || in_range 28 32 n || (n =? 133) || (n =? 160).

(** [c.isdecimal()]: the characters [int()] accepts as digits. *)
Definition isdecimal_char (c : ascii) : bool := in_range 48 57 (code c).

(** [c.isdigit()]: the decimal characters and the superscript digits
    U+00B2, U+00B3 and U+00B9. *)
Definition isdigit_char (c : ascii) : bool :=
  let n := code c in
  isdecimal_char c || (n =? 178) || (n =? 179) || (n =? 185).

Fixpoint all_chars (f : ascii -> bool) (s : string) : bool :=
  match s with
  | EmptyString => true
  | String c r => f c && all_chars f r
  end.

(** [s.isdigit()]: at least one character, all of them digits. *)
Definition isdigit (s : string) : bool :=
  match s with
  | EmptyString => false
  | _ => all_chars isdigit_char s
  end.

Fixpoint lstrip (s : string) : string :=
  match s with
  | EmptyString => EmptyString
  | String c r => if isspace_char c then lstrip r else s
  end.

Fixpoint rstrip (s : string) : string :=
  match s with
  | EmptyString => EmptyString
  | String c r =>
      match rstrip r with
      | EmptyString => if isspace_char c then EmptyString
                       else String c EmptyString
      | r' => String c r'
      end
  end.

(** [s.strip()] *)
Definition strip (s : string) : string := rstrip (lstrip s).

Definition digit_value (c : ascii) : Z := Z.of_N (code c - 48).

(** The digits of an integer literal after the first one: decimal
    characters, each optionally preceded by one underscore. *)
Fixpoint literal_tail (acc : Z) (s : string) : option Z :=
  match s with
  | EmptyString => Some acc
  | String "_" (String c r) =>
      if isdecimal_char c then literal_tail (acc * 10 + digit_value c)%Z r
      else None
  | String c r =>
      if isdecimal_char c then literal_tail (acc * 10 + digit_value c)%Z r
      else None
  end.

Definition literal (s : string) : option Z :=
  match s with
  | EmptyString => None
  | String c r => if isdecimal_char c then literal_tail (digit_value c) r
                  else None
  end.

(** The longest prefix made of decimal characters and underscores: what
    [int] scans before it checks the number of digits. *)
Fixpoint digit_run (s : string) : string :=
  match s with
  | EmptyString => EmptyString
  | String c r =>
      if isdecimal_char c || Ascii.eqb c "_" then String c (digit_run r)
      else EmptyString
  end.

Fixpoint count_decimal (s : string) : N :=
  match s with
  | EmptyString => 0
  | String c r =>
      if isdecimal_char c then 1 + count_decimal r else count_decimal r
  end.

(** [sys.get_int_max_str_digits()], at its default. *)
Definition max_str_digits : N := 4300.

(** [int(s)] in base ten: surrounding white space, an optional sign, then
    the digits.  A well-formed run of more than 4300 digits raises
    [ValueError] before what follows it is looked at, as interpreters do
    since CPython 3.11; anything else that is not a literal raises
    [ValueError] too. *)
Definition int_of_str (s : string) : result Z :=
  let t := strip s in
  let '(neg, body) :=
    match t with
    | String "-" r => (true, r)
    | String "+" r => (false, r)
    | _ => (false, t)
    end in
  let digits := count_decimal (digit_run body) in
  match literal (digit_run body) with
  | Some _ =>
      if max_str_digits <? digits then
        inl (PyExc "ValueError"
               ("Exceeds the limit (4300 digits) for integer string conversion: value has "
                ++ NilZero.string_of_uint (N.to_uint digits)
                ++ " digits; use sys.set_int_max_str_digits() to increase the limit"))
      else
        match literal body with
        | Some n => inr (if neg then - n else n)%Z
        | None =>
            inl (PyExc "ValueError"
                   ("invalid literal for int() with base 10: '" ++ s ++ "'"))
        end
  | None =>
      inl (PyExc "ValueError"
                 ("invalid literal for int() with base 10: '" ++ s ++ "'"))
  end.

(** [s.rfind(c)]: the index of the last occurrence, [-1] when absent. *)
Fixpoint rfind (c : ascii) (s : string) : Z :=
  match s with
  | EmptyString => (-1)%Z
  | String a r =>
      let i := rfind c r in
      if (0 <=? i)%Z then (i + 1)%Z
      else if Ascii.eqb a c then 0%Z else (-1)%Z
  end.

(** [s[i:]] for [0 <= i]. *)
Fixpoint drop (i : nat) (s : string) : string :=
  match i, s with
  | O, _ => s
  | S i', String _ r => drop i' r
  | S _, EmptyString => EmptyString
  end.

(** [PurePath.suffix] of a final path component:
    [i = name.rfind('.')], then [name[i:]] when [0 < i < len(name) - 1]
    and the empty string otherwise. *)
Definition suffix (name : string) : string :=
  let i := rfind "." name in
  if ((0 <? i) && (i <? Z.of_nat (String.length name) - 1))%Z
  then drop (Z.to_nat i) name else EmptyString.

(** [s in (a, b, ...)] for strings *)
Definition str_in (s : string) (l : list string) : bool :=
  existsb (String.eqb s) l.

(** *** Glob patterns

    The wildcard language of [Path.glob] for one path component: [*] for
    any run of characters, [?] for one character, any other character for
    itself.  Names starting with a dot are matched like any other. *)
Inductive tok : Type :=
| Star
| AnyChar
| Lit (c : ascii).

Fixpoint tokens (pattern : string) : list tok :=
  match pattern with
  | EmptyString => nil
  | String "*" r => Star :: tokens r
  | String "?" r => AnyChar :: tokens r
  | String c r => Lit c :: tokens r
  end.

(** Character comparison; case is folded when the path flavour is not
    case sensitive. *)
Definition chr_eq (case_sensitive : bool) (a c : ascii) : bool :=
  if case_sensitive then Ascii.eqb a c
  else Ascii.eqb (lower_char a) (lower_char c).

Fixpoint match_toks (cs : bool) (p : list tok) (s : string) {struct p} : bool :=
  match p with
  | nil => match s with EmptyString => true | _ => false end
  | Star :: p' =>
      (fix star (s : string) : bool :=
         match_toks cs p' s ||
         match s with
         | EmptyString => false
         | String _ s' => star s'
         end) s
  | AnyChar :: p' =>
      match s with
      | EmptyString => false
      | String _ s' => match_toks cs p' s'
      end
  | Lit c :: p' =>
      match s with
      | EmptyString => false
      | String a s' => chr_eq cs a c && match_toks cs p' s'
      end
  end.

Definition fnmatch (cs : bool) (pattern name : string) : bool :=
  match_toks cs (tokens pattern) name.

End PyStr.

(** ** The platform: file system and imaging library

    [Worker.run] talks to the operating system through [pathlib] and to the
    Pillow library; both are outside the repository.  They are kept
    abstract: a platform provides the state of the outside world and the
    operations the worker calls, each of which may raise. *)

(** A path [Path(parent) / name]. *)
Record FilePath : Type := { parent : string; name : string }.

Inductive format : Type := JPEG | PNG.

Inductive resample : Type := LANCZOS.

Class Platform : Type := {
  world : Type;
  image : Type;
  (** [Path(p).exists()] *)
  path_exists : string -> world -> bool;
  (** [os.path.isdir(p)] *)
  isdir : string -> world -> bool;
  (** [Path(p).mkdir(parents=True, exist_ok=True)] *)
  path_mkdir : string -> world -> result unit * world;
  (** the entries of a directory in the order the system lists them; none
      when the path is not a readable directory *)
  iterdir : string -> world -> list string;
  (** whether [Path.glob] compares names with case *)
  glob_case_sensitive : bool;
  (** [Image.open(path)] *)
  Image_open : FilePath -> world -> result image;
  (** [Image.new(mode, size, color)] *)
  Image_new : string -> Z * Z -> Z * Z * Z -> result image;
  (** [img.size] and [img.mode] *)
  im_size : image -> Z * Z;
  im_mode : image -> string;
  (** the image after [img.info.clear()] *)
  im_clear_info : image -> image;
  (** [img.copy()] *)
  im_copy : image -> result image;
  (** [img.resize(size, resample)] *)
  im_resize : image -> Z * Z -> resample -> result image;
  (** [img.split()[-1]] *)
  im_last_band : image -> result image;
  (** the background after [background.paste(img)] or
      [background.paste(img, mask=m)] *)
  im_paste : image -> image -> option image -> result image;
  (** [img.save(path, format, quality=q, optimize=o)]; [quality] is absent
      when the call does not pass it *)
  im_save : image -> FilePath -> format -> option Z -> bool ->
            world -> result unit * world
}.

(** The part of Pillow's documented behaviour the properties below rely
    on. *)
Class Pillow (P : Platform) : Prop := {
  (** image sizes are non-negative C [int]s *)
  size_range : forall img,
    0 <= fst (im_size img) < 2 ^ 31 /\ 0 <= snd (im_size img) < 2 ^ 31;
  clear_info_size : forall img, im_size (im_clear_info img) = im_size img;
  clear_info_mode : forall img, im_mode (im_clear_info img) = im_mode img;
  copy_size : forall img img', im_copy img = inr img' ->
    im_size img' = im_size img;
  (** [resize] returns an image of the requested size ... *)
  resize_size : forall img size r img', im_resize img size r = inr img' ->
    im_size img' = size;
  (** ... and, unless the size is the one the image already has, raises
      [ValueError] when a side is not positive *)
  resize_positive : forall img size r img', im_resize img size r = inr img' ->
    size <> im_size img -> 1 <= fst size /\ 1 <= snd size;
  new_size_mode : forall mode size color img,
    Image_new mode size color = inr img ->
    im_size img = size /\ im_mode img = mode;
  paste_size : forall bg img mask bg', im_paste bg img mask = inr bg' ->
    im_size bg' = im_size bg
}.

Module Worker.

Import PyNum PyStr.
Local Open Scope string_scope.

Section WithPlatform.

Context {P : Platform}.

(** What a run does to the outside: the three Qt signals of the worker, and
    the two calls that write to the file system. *)
Inductive event : Type :=
| Progress (percent : Z)       (* [self.progress.emit(percent)] *)
| Log (line : string)          (* [self.log.emit(line)] *)
| Finished                     (* [self.finished.emit()] *)
| MkDir (dir : string)         (* [output_path.mkdir(...)] *)
| Save (img : image) (dest : FilePath) (fmt : format)
       (quality : option Z) (optimize : bool).   (* [new_img.save(...)] *)

(** *** The monad of worker code: state of the world, exceptions, and the
    events emitted so far, in order. *)
Definition M (A : Type) : Type := world -> result A * world * list event.

Definition ret {A} (a : A) : M A := fun w => (inr a, w, nil).

Definition raise {A} (e : exn) : M A := fun w => (inl e, w, nil).

Definition bind {A B} (m : M A) (k : A -> M B) : M B :=
  fun w =>
    match m w with
    | (inl e, w1, t1) => (inl e, w1, t1)
    | (inr a, w1, t1) =>
        let '(r, w2, t2) := k a w1 in (r, w2, (t1 ++ t2)%list)
    end.

(** [try: m except Exception as e: h e] *)
Definition try_except {A} (m : M A) (h : exn -> M A) : M A :=
  fun w =>
    match m w with
    | (inl e, w1, t1) =>
        let '(r, w2, t2) := h e w1 in (r, w2, (t1 ++ t2)%list)
    | ok => ok
    end.

(** [try: m finally: f] *)
Definition try_finally {A} (m : M A) (f : M unit) : M A :=
  fun w =>
    let '(r, w1, t1) := m w in
    let '(rf, w2, t2) := f w1 in
    (match rf with inl e => inl e | inr _ => r end, w2, (t1 ++ t2)%list).

Definition lift {A} (r : result A) : M A := fun w => (r, w, nil).

Definition emit (e : event) : M unit := fun w => (inr tt, w, e :: nil).

Definition read {A} (f : world -> A) : M A := fun w => (inr (f w), w, nil).

Definition read_result {A} (f : world -> result A) : M A :=
  fun w => (f w, w, nil).

Definition call {A} (f : world -> result A * world) : M A :=
  fun w => let '(r, w1) := f w in (r, w1, nil).

End WithPlatform.

Notation "x <- m ;; k" := (bind m (fun x => k))
  (at level 61, m at next level, right associativity).
Notation "m ;; k" := (bind m (fun _ => k))
  (at level 61, right associativity).

Section WithPlatform.

Context {P : Platform}.

(** The attributes set by [Worker.__init__]. *)
Record Worker : Type := {
  input_dir : string;
  output_dir : string;
  target_size : Z;
  jpeg_quality : Z;
  overwrite : bool
}.

(** [list(Path(dir).glob(pattern))] *)
Definition glob (dir pattern : string) : M (list FilePath) :=
  read (fun w =>
          map (fun n => {| parent := dir; name := n |})
              (filter (fnmatch glob_case_sensitive pattern) (iterdir dir w))).

(** Lines 66-67:
    [ratio = self.target_size / current_max]
    [new_size = (int(width * ratio), int(height * ratio))] *)
Definition new_size (target width height current_max : Z) : result (Z * Z) :=
  let? ratio := int_truediv target current_max in
  let? fw := int_mul_float width ratio in
  let? nw := int_of_float fw in
  let? fh := int_mul_float height ratio in
  let? nh := int_of_float fh in
  inr (nw, nh).

(** Line 98: [int((i + 1) / total * 100)] *)
Definition percent (i total : Z) : result Z :=
  let? q := int_truediv (i + 1) total in
  let? p := float_mul_int q 100 in
  int_of_float p.

(** Lines 80-86: flattening onto a white background. *)
Definition flatten (new_img : image) : M image :=
  if str_in (im_mode new_img) ("RGBA" :: "P" :: nil) then
    background <- lift (Image_new "RGB" (im_size new_img) (255, 255, 255)) ;;
    if String.eqb (im_mode new_img) "RGBA" then
      mask <- lift (im_last_band new_img) ;;
      lift (im_paste background new_img (Some mask))
    else
      lift (im_paste background new_img None)
  else ret new_img.

Definition save (img : image) (dest : FilePath) (fmt : format)
    (quality : option Z) (optimize : bool) : M unit :=
  emit (Save img dest fmt quality optimize) ;;
  call (im_save img dest fmt quality optimize).

(** Lines 60-68: the image to encode, a copy or a resized image. *)
Definition resized (self : Worker) (img : image) : result image :=
  let '(width, height) := im_size img in
  let current_max := Z.max width height in
  if (current_max <=? target_size self)%Z then im_copy img
  else
    let? size := new_size (target_size self) width height current_max in
    im_resize img size LANCZOS.

(** Lines 77-92: the encoder is chosen by [save_path.suffix.lower()]. *)
Definition encode (self : Worker) (new_img : image) (save_path : FilePath)
  : M unit :=
  let ext := lower (suffix (name save_path)) in
  if str_in ext (".jpg" :: ".jpeg" :: nil) then
    new_img <- flatten new_img ;;
    save new_img save_path JPEG (Some (jpeg_quality self)) true
  else
    save new_img save_path PNG None true.

(** Line 75: [img_path if self.overwrite else output_path / img_path.name] *)
Definition save_path_of (self : Worker) (output_path : option string)
    (img_path : FilePath) : result FilePath :=
  if overwrite self then inr img_path
  else match output_path with
       | Some dir => inr {| parent := dir; name := name img_path |}
       | None =>
           inl (PyExc "TypeError"
             "unsupported operand type(s) for /: 'NoneType' and 'str'")
       end.

(** Lines 55-94: the body of the inner [try].  Every Pillow image has an
    [info] attribute, so both [hasattr] tests succeed. *)
Definition process_image (self : Worker) (output_path : option string)
    (img_path : FilePath) : M unit :=
  img <- read_result (Image_open img_path) ;;
  let img := im_clear_info img in
  new_img <- lift (resized self img) ;;
  let new_img := im_clear_info new_img in
  save_path <- lift (save_path_of self output_path img_path) ;;
  encode self new_img save_path ;;
  emit (Log ("Processed: " ++ name img_path)).

(** Lines 53-98: one turn of the loop. *)
Definition iteration (self : Worker) (output_path : option string)
    (total i : Z) (img_path : FilePath) : M unit :=
  try_except
    (process_image self output_path img_path)
    (fun e => emit (Log ("Error with " ++ name img_path ++ ": " ++ str e))) ;;
  p <- lift (percent i total) ;;
  emit (Progress p).

(** [for i, x in enumerate(l): body i x], counting from [i]. *)
Fixpoint for_enumerate {A} (body : Z -> A -> M unit) (i : Z) (l : list A)
  : M unit :=
  match l with
  | nil => ret tt
  | x :: l' => body i x ;; for_enumerate body (i + 1) l'
  end.

(** Lines 38-41.  A [Path] object is always true in a condition. *)
Definition ensure_output_dir (self : Worker) (output_path : option string)
  : M unit :=
  match output_path with
  | Some dir =>
      present <- read (path_exists dir) ;;
      if negb (overwrite self) && true && negb present then
        emit (MkDir dir) ;; call (path_mkdir dir)
      else ret tt
  | None => ret tt
  end.

(** Lines 43-45. *)
Definition image_files (self : Worker) : M (list FilePath) :=
  a <- glob (input_dir self) "*.jpg" ;;
  b <- glob (input_dir self) "*.jpeg" ;;
  c <- glob (input_dir self) "*.png" ;;
  ret (a ++ b ++ c)%list.

(** Lines 37-100: the body of the outer [try].  The [return] of line 51
    leaves the function through the [finally] clause. *)
Definition run_body (self : Worker) : M unit :=
  let output_path :=
    if negb (overwrite self) then Some (output_dir self) else None in
  ensure_output_dir self output_path ;;
  files <- image_files self ;;
  let total := Z.of_nat (List.length files) in
  if (total =? 0)%Z then
    emit (Log "No images found in the source folder.") ;;
    emit Finished
  else
    for_enumerate (iteration self output_path total) 0 files ;;
    emit (Log "Conversion completed.").

(** [Worker.run] *)
Definition run (self : Worker) : M unit :=
  try_finally
    (try_except (run_body self)
       (fun e => emit (Log ("Critical error: " ++ str e))))
    (emit Finished).

(** The values sent to the progress bar, in order. *)
Fixpoint progress_values (t : list event) : list Z :=
  match t with
  | nil => nil
  | Progress p :: t' => p :: progress_values t'
  | _ :: t' => progress_values t'
  end.

(** The events of a computation started in [w]. *)
Definition events {A} (m : M A) (w : world) : list event := snd (m w).

End WithPlatform.

End Worker.

Module MainWindow.

Import PyStr.
Local Open Scope string_scope.

Section WithPlatform.

Context {P : Platform}.

(** The widgets [start_conversion] reads and writes, and the worker it
    creates. *)
Record MainWindow : Type := {
  input_line : string;
  output_line : string;
  size_line : string;
  quality_line : string;
  overwrite_cb : bool;
  start_btn_enabled : bool;
  progress_bar : Z;
  log_text : list string;
  worker : option Worker.Worker
}.

(** [self.log_text.append(line)] *)
Definition log_append (self : MainWindow) (line : string) : MainWindow :=
  {| input_line := input_line self;
     output_line := output_line self;
     size_line := size_line self;
     quality_line := quality_line self;
     overwrite_cb := overwrite_cb self;
     start_btn_enabled := start_btn_enabled self;
     progress_bar := progress_bar self;
     log_text := (log_text self ++ line :: nil)%list;
     worker := worker self |}.

Definition is_empty (s : string) : bool :=
  match s with EmptyString => true | _ => false end.

(** [MainWindow.start_conversion]: the window after the slot returns, or
    the exception that leaves it. *)
Definition start_conversion (self : MainWindow) (w : world)
  : result MainWindow :=
  let input_dir := strip (input_line self) in
  let output_dir := strip (output_line self) in
  let size_text := strip (size_line self) in
  let quality_text := strip (quality_line self) in
  let overwrite := overwrite_cb self in
  if is_empty input_dir || negb (isdir input_dir w) then
    inr (log_append self "Error: Invalid source folder.")
  else if negb overwrite &&
          (is_empty output_dir || negb (isdir output_dir w)) then
    inr (log_append self "Error: Invalid destination folder.")
  else
    let? bad_size :=
      (if negb (isdigit size_text) then inr true
       else let? n := int_of_str size_text in inr (n <=? 0)%Z) in
    if bad_size then
      inr (log_append self
        "Error: Please enter a valid number greater than 0 for the image size.")
    else
      let? bad_quality :=
        (if negb (isdigit quality_text) then inr true
         else let? q := int_of_str quality_text in
              inr (negb ((1 <=? q)%Z && (q <=? 95)%Z))) in
      if bad_quality then
        inr (log_append self
          "Error: Image quality must be a number between 1 and 95.")
      else
        let? target_size := int_of_str size_text in
        let? jpeg_quality := int_of_str quality_text in
        inr {| input_line := input_line self;
               output_line := output_line self;
               size_line := size_line self;
               quality_line := quality_line self;
               overwrite_cb := overwrite_cb self;
               start_btn_enabled := false;
               progress_bar := 0;
               log_text := nil;
               worker := Some {| Worker.input_dir := input_dir;
                                 Worker.output_dir := output_dir;
                                 Worker.target_size := target_size;
                                 Worker.jpeg_quality := jpeg_quality;
                                 Worker.overwrite := overwrite |} |}.

End WithPlatform.

End MainWindow.

(** ** A simulated platform

    A small file system and a Pillow that keeps only the size and mode of an
    image; it is used to run the model on concrete directories. *)
Module Sim.

Local Open Scope string_scope.
Local Open Scope Z_scope.

Record picture : Type := { px_size : Z * Z; px_mode : string }.

Inductive entry : Type :=
| Picture (img : picture)
| Garbage.

Record disk : Type := {
  dirs : list string;
  files : list (FilePath * entry)
}.

Definition same_path (a b : FilePath) : bool :=
  String.eqb (parent a) (parent b) && String.eqb (name a) (name b).

Definition lookup (f : FilePath) (d : disk) : option entry :=
  option_map snd (find (fun x => same_path f (fst x)) (files d)).

Definition sane (z : Z) : bool := (0 <=? z) && (z <? 2 ^ 31).

Definition clamp (z : Z) : Z := Z.max 0 (Z.min z (2 ^ 31 - 1)).

Definition write (f : FilePath) (e : entry) (d : disk) : disk :=
  {| dirs := dirs d;
     files := if existsb (fun x => same_path f (fst x)) (files d)
              then map (fun x => if same_path f (fst x) then (f, e) else x)
                       (files d)
              else (files d ++ (f, e) :: nil)%list |}.

Definition has_dir (p : string) (d : disk) : bool :=
  existsb (String.eqb p) (dirs d).

Definition open (f : FilePath) (d : disk) : result picture :=
  match lookup f d with
  | Some (Picture img) => inr img
  | Some Garbage =>
      inl (PyExc "UnidentifiedImageError"
                 ("cannot identify image file '" ++ name f ++ "'"))
  | None =>
      inl (PyExc "FileNotFoundError"
                 ("[Errno 2] No such file or directory: '" ++ name f ++ "'"))
  end.

Definition resize (img : picture) (size : Z * Z) (r : resample)
  : result picture :=
  if (fst size =? clamp (fst (px_size img))) &&
     (snd size =? clamp (snd (px_size img))) then inr img
  else if (fst size <? 1) || (snd size <? 1) then
    inl (PyExc "ValueError" "height and width must be > 0")
  else if sane (fst size) && sane (snd size) then
    inr {| px_size := size; px_mode := px_mode img |}
  else inl (PyExc "MemoryError" EmptyString).

Definition new (mode : string) (size : Z * Z) (color : Z * Z * Z)
  : result picture :=
  if sane (fst size) && sane (snd size) then
    inr {| px_size := size; px_mode := mode |}
  else inl (PyExc "ValueError" "Width and height must be >= 0").

Definition jpeg_modes : list string := "1" :: "L" :: "RGB" :: "CMYK" :: nil.

Definition save (img : picture) (dest : FilePath) (fmt : format)
    (quality : option Z) (optimize : bool) (d : disk) : result unit * disk :=
  if negb (has_dir (parent dest) d) then
    (inl (PyExc "FileNotFoundError"
                ("[Errno 2] No such file or directory: '" ++ name dest ++ "'")),
     d)
  else
    match fmt with
    | JPEG =>
        if PyStr.str_in (px_mode img) jpeg_modes then
          (inr tt, write dest (Picture img) d)
        else
          (inl (PyExc "OSError"
                      ("cannot write mode " ++ px_mode img ++ " as JPEG")), d)
    | PNG => (inr tt, write dest (Picture img) d)
    end.

#[export] Instance platform : Platform := {|
  world := disk;
  image := picture;
  path_exists := has_dir;
  isdir := has_dir;
  path_mkdir := fun p d =>
    (inr tt, if has_dir p d then d
             else {| dirs := (dirs d ++ p :: nil)%list; files := files d |});
  iterdir := fun p d =>
    map (fun x => name (fst x))
        (filter (fun x => String.eqb (parent (fst x)) p) (files d));
  glob_case_sensitive := true;
  Image_open := open;
  Image_new := new;
  im_size := fun img => (clamp (fst (px_size img)), clamp (snd (px_size img)));
  im_mode := px_mode;
  im_clear_info := fun img => img;
  im_copy := fun img => inr img;
  im_resize := resize;
  im_last_band := fun img => inr {| px_size := px_size img; px_mode := "L" |};
  im_paste := fun bg _ _ => inr bg;
  im_save := save
|}.

(** A directory [dir] holding the given entries. *)
Definition folder (dir : string) (l : list (string * entry)) : disk :=
  {| dirs := dir :: nil;
     files := map (fun x => ({| parent := dir; name := fst x |}, snd x)) l |}.

Definition rgb (w h : Z) : entry :=
  Picture {| px_size := (w, h); px_mode := "RGB" |}.

(** [n] small pictures named [a.png], [aa.png], [aaa.png], ... *)
Definition batch (n : nat) : list (string * entry) :=
  map (fun k => (String.concat EmptyString (repeat "a" k) ++ ".png", rgb 10 10))
      (seq 1 n).

(** A worker on the folder [in], writing to [out] unless it overwrites. *)
Definition demo (overwrite : bool) (target : Z) : Worker.Worker :=
  {| Worker.input_dir := "in"; Worker.output_dir := "out"; Worker.target_size := target;
     Worker.jpeg_quality := 80; Worker.overwrite := overwrite |}.

Definition at_in (n : string) : FilePath := {| parent := "in"; name := n |}.

(** Two good pictures, a file that is not an image, and a picture whose
    extension is in upper case. *)
Definition mixed_folder : world (Platform := platform) :=
  folder "in"
    [("a.jpg", rgb 4000 3000); ("bad.jpeg", Garbage);
     ("b.png", rgb 100 50); ("PHOTO.JPG", rgb 10 10)].

End Sim.

(** ** Where a quotient lies with respect to a mantissa

    [inbetween n d m l] places the rational [n / d] relative to the integer
    [m], with the location [l] kept by the rounding functions: exactly on
    [m], or strictly between [m] and [m + 1], below, at or above the
    midpoint. *)
Module Location.

Definition inbetween (n d m : Z) (l : location) : Prop :=
  match l with
  | loc_Exact => n = m * d
  | loc_Inexact Lt => m * d < n /\ 2 * n < (2 * m + 1) * d
  | loc_Inexact Eq => 2 * n = (2 * m + 1) * d
  | loc_Inexact Gt => (2 * m + 1) * d < 2 * n /\ n < (m + 1) * d
  end.

(** The same for the record threaded through the right shifts. *)
Definition located (n d : Z) (mrs : shr_record) : Prop :=
  0 <= shr_m mrs /\ inbetween n d (shr_m mrs) (loc_of_shr_record mrs).

End Location.

(** ** Vocabulary of the properties *)
Module Spec.

Import PyStr Worker.
Local Open Scope string_scope.
Local Open Scope Z_scope.

(** [s.endswith(tail)] *)
Definition ends_with (s tail : string) : Prop := exists stem, s = stem ++ tail.

Fixpoint last_char (s : string) : option ascii :=
  match s with
  | EmptyString => None
  | String c r => match last_char r with Some l => Some l | None => Some c end
  end.

(** The three endings of the glob patterns, in lower case. *)
Definition image_name (n : string) : Prop :=
  ends_with n ".jpg" \/ ends_with n ".jpeg" \/ ends_with n ".png".

Section WithPlatform.

Context {P : Platform}.

(** The value of [output_path] on line 38. *)
Definition output_path_of (self : Worker) : option string :=
  if negb (overwrite self) then Some (output_dir self) else None.

(** The value of [image_files] on lines 43-45 in a given state. *)
Definition enumerated (self : Worker) (w : world) : list FilePath :=
  let listing pattern :=
    map (fun n => {| parent := input_dir self; name := n |})
        (filter (fnmatch glob_case_sensitive pattern)
                (iterdir (input_dir self) w)) in
  (listing "*.jpg" ++ listing "*.jpeg" ++ listing "*.png")%list.

(** The events of one file: [save] calls on that file's name and log
    lines. *)
Definition file_event (n : string) (e : event) : Prop :=
  match e with
  | Save _ dest _ _ _ => name dest = n
  | Log _ => True
  | _ => False
  end.

(** The events the loop may emit for a list of files. *)
Definition loop_event (files : list FilePath) (e : event) : Prop :=
  match e with
  | Save _ dest _ _ _ => In (name dest) (map name files)
  | Log _ | Progress _ => True
  | _ => False
  end.

(** The events of a run: those of the directory check, then events of the
    loop over the files found, log lines and completion signals. *)
Definition run_event (files : list FilePath) (e : event) : Prop :=
  match e with
  | Finished => True
  | _ => loop_event files e
  end.

Section Loop.

Variable self : Worker.
Variable output_path : option string.
Variable total : Z.

(** How the loop went through a list of files: for each file in turn, the
    events of its processing, one log line that reports success or the
    error that was caught, and the progress value; then the next file. *)
Inductive visits : Z -> list FilePath -> world -> world -> list event -> Prop :=
| visits_done i w : visits i [] w w []
| visits_processed i f fs w w1 w2 t1 p t :
    process_image self output_path f w =
      (inr tt, w1, (t1 ++ [Log ("Processed: " ++ name f)])%list) ->
    percent i total = inr p ->
    visits (i + 1) fs w1 w2 t ->
    visits i (f :: fs) w w2
      (t1 ++ [Log ("Processed: " ++ name f); Progress p] ++ t)%list
| visits_failed i f fs w w1 w2 e t1 p t :
    process_image self output_path f w = (inl e, w1, t1) ->
    percent i total = inr p ->
    visits (i + 1) fs w1 w2 t ->
    visits i (f :: fs) w w2
      (t1 ++ [Log ("Error with " ++ name f ++ ": " ++ str e); Progress p] ++ t)%list.

End Loop.

End WithPlatform.

(** The four messages of lines 209-221. *)
Definition rejections : list string :=
  ["Error: Invalid source folder.";
   "Error: Invalid destination folder.";
   "Error: Please enter a valid number greater than 0 for the image size.";
   "Error: Image quality must be a number between 1 and 95."].

End Spec.

(** ** The slots of the main window

    Lines 232-234 of [start_conversion] connect the three signals of the
    worker to the progress bar, to the log window and to [on_finished]. *)
Module Slots.

Import Worker MainWindow.
Local Open Scope Z_scope.

Section WithPlatform.

Context {P : Platform}.

(** [MainWindow.on_finished] *)
Definition on_finished (self : MainWindow) : MainWindow :=
  {| input_line := input_line self;
     output_line := output_line self;
     size_line := size_line self;
     quality_line := quality_line self;
     overwrite_cb := overwrite_cb self;
     start_btn_enabled := true;
     progress_bar := progress_bar self;
     log_text := log_text self;
     worker := worker self |}.

(** [self.progress_bar.setValue(value)] on the bar of line 175, whose range
    is the default one, 0 to 100: a value outside the range is ignored. *)
Definition setValue (self : MainWindow) (value : Z) : MainWindow :=
  if (0 <=? value) && (value <=? 100) then
    {| input_line := input_line self;
       output_line := output_line self;
       size_line := size_line self;
       quality_line := quality_line self;
       overwrite_cb := overwrite_cb self;
       start_btn_enabled := start_btn_enabled self;
       progress_bar := value;
       log_text := log_text self;
       worker := worker self |}
  else self.

(** Lines 232-234: the slot each signal of the worker is connected to.  The
    calls to the file system are not signals. *)
Definition slot (self : MainWindow) (e : event) : MainWindow :=
  match e with
  | Progress value => setValue self value
  | Log line => log_append self line
  | Finished => on_finished self
  | MkDir _ | Save _ _ _ _ _ => self
  end.

(** The window after the signals of a trace were delivered, in the order in
    which they were emitted. *)
Definition deliver (self : MainWindow) (t : list event) : MainWindow :=
  fold_left slot t self.

End WithPlatform.

End Slots.

(** ** Further vocabulary *)
Module Terms.

Import PyStr Worker Spec.
Local Open Scope string_scope.
Local Open Scope Z_scope.

(** [range(i, i + n)] *)
Fixpoint indices (i : Z) (n : nat) : list Z :=
  match n with
  | O => []
  | S n' => i :: indices (i + 1) n'
  end.

(** [s[-2]], when there is one. *)
Fixpoint penultimate (s : string) : option ascii :=
  match s with
  | EmptyString => None
  | String a r =>
      match r with
      | String _ EmptyString => Some a
      | _ => penultimate r
      end
  end.

(** A character that [isdigit] and [int] treat alike. *)
Definition plain_char (c : ascii) : bool :=
  negb (isdigit_char c) || isdecimal_char c.

(** A text without the superscript digits U+00B2, U+00B3 and U+00B9. *)
Definition plain (s : string) : bool := all_chars plain_char s.

Section WithPlatform.

Context {P : Platform}.

(** The state in which a run enumerates the files: the one left by the
    directory check of lines 38-41. *)
Definition prepared_world (self : Worker) (w : world) : world :=
  snd (fst (ensure_output_dir self (output_path_of self) w)).

(** The worker with another destination directory. *)
Definition with_output_dir (self : Worker) (dir : string) : Worker :=
  {| input_dir := input_dir self;
     output_dir := dir;
     target_size := target_size self;
     jpeg_quality := jpeg_quality self;
     overwrite := overwrite self |}.

(** Where line 75 sends the file [f]. *)
Definition destination (self : Worker) (f : FilePath) : FilePath :=
  if overwrite self then f
  else {| parent := output_dir self; name := name f |}.

(** A [save] call for the file [f]: to its destination, with
    [optimize=True] and the quality of its format. *)
Definition save_for (self : Worker) (f : FilePath) (e : event) : Prop :=
  match e with
  | Save _ dest fmt quality optimize =>
      dest = destination self f /\ optimize = true /\
      quality = match fmt with
                | JPEG => Some (jpeg_quality self)
                | PNG => None
                end
  | Log _ | Progress _ => True
  | _ => False
  end.

(** How many times a run signals completion: line 50 signals it before
    the [finally] clause does when no image is found. *)
Definition completions (self : Worker) (w : world) : nat :=
  match fst (fst (ensure_output_dir self (output_path_of self) w)) with
  | inl _ => 1
  | inr _ =>
      match enumerated self
              (snd (fst (ensure_output_dir self (output_path_of self) w))) with
      | [] => 2
      | _ :: _ => 1
      end
  end.

(** The lines a trace sends to the log window, in order. *)
Fixpoint log_lines (t : list event) : list string :=
  match t with
  | [] => []
  | Log line :: t' => line :: log_lines t'
  | _ :: t' => log_lines t'
  end.

End WithPlatform.

End Terms.

(** ** Further scenes on the simulated platform *)
Module Scenes.

Import MainWindow.
Local Open Scope string_scope.
Local Open Scope Z_scope.

(** The simulated platform on a file system that cannot be written:
    [mkdir] and [save] raise [PermissionError]. *)
Definition read_only : Platform := {|
  world := Sim.disk;
  image := Sim.picture;
  path_exists := Sim.has_dir;
  isdir := Sim.has_dir;
  path_mkdir := fun p d =>
    (inl (PyExc "PermissionError"
                ("[Errno 13] Permission denied: '" ++ p ++ "'")), d);
  iterdir := fun p d =>
    map (fun x => name (fst x))
        (filter (fun x => String.eqb (parent (fst x)) p) (Sim.files d));
  glob_case_sensitive := true;
  Image_open := Sim.open;
  Image_new := Sim.new;
  im_size := fun img =>
    (Sim.clamp (fst (Sim.px_size img)), Sim.clamp (snd (Sim.px_size img)));
  im_mode := Sim.px_mode;
  im_clear_info := fun img => img;
  im_copy := fun img => inr img;
  im_resize := Sim.resize;
  im_last_band := fun img =>
    inr {| Sim.px_size := Sim.px_size img; Sim.px_mode := "L" |};
  im_paste := fun bg _ _ => inr bg;
  im_save := fun img dest fmt quality optimize d =>
    (inl (PyExc "PermissionError"
                ("[Errno 13] Permission denied: '" ++ name dest ++ "'")), d)
|}.

(** The window as [init_ui] leaves it, with the two folders filled in. *)
Definition filled (input output : string) (overwrite : bool) : MainWindow :=
  {| input_line := input;
     output_line := output;
     size_line := "1920";
     quality_line := "80";
     overwrite_cb := overwrite;
     start_btn_enabled := true;
     progress_bar := 0;
     log_text := [];
     worker := None |}.

(** The window a slot returned. *)
Definition returned (r : result MainWindow) (otherwise : MainWindow)
  : MainWindow :=
  match r with
  | inr self => self
  | inl _ => otherwise
  end.

End Scenes.

(** * Properties *)

(** ** Rounding of binary64 operations *)
Module PyNumFacts.

Import PyNum Location.

Lemma digits2_pos_bounds (p : positive) :
  2 ^ (Z.pos (digits2_pos p) - 1) <= Z.pos p < 2 ^ Z.pos (digits2_pos p).
Proof.
  induction p as [p IH|p IH|]; cbn [digits2_pos].
  - rewrite Pos2Z.inj_succ.
    replace (Z.succ (Z.pos (digits2_pos p)) - 1)
      with (Z.succ (Z.pos (digits2_pos p) - 1)) by lia.
    rewrite !Z.pow_succ_r by lia. lia.
  - rewrite Pos2Z.inj_succ.
    replace (Z.succ (Z.pos (digits2_pos p)) - 1)
      with (Z.succ (Z.pos (digits2_pos p) - 1)) by lia.
    rewrite !Z.pow_succ_r by lia. lia.
  - cbn. lia.
Qed.

Lemma shr_1_located n d mrs :
  0 < d -> located n d mrs -> located n (2 * d) (shr_1 mrs).
Proof.
  intros Hd [Hm H]. destruct mrs as [m r s].
  destruct m as [|[p|p|]|]; destruct r, s;
    cbv [located shr_1 shr_m loc_of_shr_record inbetween orb] in *;
    lia.
Qed.

Lemma iter_shr_1_located n p : forall d mrs,
  0 < d -> located n d mrs ->
  located n (d * 2 ^ Z.pos p) (iter_pos shr_1 p mrs).
Proof.
  induction p as [p IH|p IH|]; intros d mrs Hd H; cbn [iter_pos].
  - replace (d * 2 ^ Z.pos p~1) with (2 * d * 2 ^ Z.pos p * 2 ^ Z.pos p).
    + apply IH. { assert (0 < 2 ^ Z.pos p) by (apply Z.pow_pos_nonneg; lia). nia. }
      apply IH. lia. now apply shr_1_located.
    + assert (E : 2 ^ Z.pos p~1 = 2 * (2 ^ Z.pos p * 2 ^ Z.pos p)).
      { rewrite <- Z.pow_add_r, <- Z.pow_succ_r by lia. f_equal. lia. }
      rewrite E. ring.
  - replace (d * 2 ^ Z.pos p~0) with (d * 2 ^ Z.pos p * 2 ^ Z.pos p).
    + apply IH. { assert (0 < 2 ^ Z.pos p) by (apply Z.pow_pos_nonneg; lia). nia. }
      now apply IH.
    + assert (E : 2 ^ Z.pos p~0 = 2 ^ Z.pos p * 2 ^ Z.pos p).
      { rewrite <- Z.pow_add_r by lia. f_equal. lia. }
      rewrite E. ring.
  - replace (d * 2 ^ 1) with (2 * d) by lia. now apply shr_1_located.
Qed.

Lemma shr_located n d mrs e k :
  0 < d -> 0 <= k -> located n d mrs ->
  located n (d * 2 ^ k) (fst (shr mrs e k)) /\ snd (shr mrs e k) = e + k.
Proof.
  intros Hd Hk H. destruct k as [|p|p]; cbn [shr fst snd]; try lia.
  - rewrite Z.mul_1_r. split; [assumption|lia].
  - split; [now apply iter_shr_1_located|reflexivity].
Qed.

Lemma located_of_loc n d m l :
  0 <= m -> inbetween n d m l -> located n d (shr_record_of_loc m l).
Proof.
  intros Hm H. destruct l as [|[]]; split; assumption.
Qed.

Lemma Zdigits2_bounds m :
  0 < m -> 2 ^ (Zdigits2 m - 1) <= m < 2 ^ Zdigits2 m.
Proof.
  destruct m as [|p|p]; try lia. intros _. apply digits2_pos_bounds.
Qed.

Lemma Zdigits2_unique m k :
  2 ^ (k - 1) <= m < 2 ^ k -> 0 < k -> Zdigits2 m = k.
Proof.
  intros H Hk.
  assert (Hm : 0 < m).
  { assert (0 < 2 ^ (k - 1)) by (apply Z.pow_pos_nonneg; lia). lia. }
  pose proof (Zdigits2_bounds m Hm) as B.
  assert (Hd : 0 < Zdigits2 m) by (destruct m; cbn; lia).
  destruct (Z.lt_trichotomy (Zdigits2 m) k) as [L|[E|G]]; [|assumption|].
  - assert (2 ^ Zdigits2 m <= 2 ^ (k - 1)) by (apply Z.pow_le_mono_r; lia). lia.
  - assert (2 ^ k <= 2 ^ (Zdigits2 m - 1)) by (apply Z.pow_le_mono_r; lia). lia.
Qed.

Lemma inbetween_bounds n d m l :
  0 < d -> inbetween n d m l -> m * d <= n < (m + 1) * d.
Proof. intros Hd H. destruct l as [|[]]; cbv [inbetween] in H; nia. Qed.

Lemma round_nearest_even_bounds n d m l :
  0 < d -> inbetween n d m l ->
  let m1 := round_nearest_even m l in
  m <= m1 <= m + 1 /\ 2 * n - d <= 2 * (m1 * d) <= 2 * n + d.
Proof.
  intros Hd H. destruct l as [|[]]; cbv [round_nearest_even inbetween] in *.
  - nia.
  - destruct (Z.even m); nia.
  - nia.
  - nia.
Qed.

Lemma fexp_normal e : -1021 <= e -> fexp prec emax e = e - 53.
Proof. intros H. unfold fexp, emin, prec, emax. lia. Qed.

Lemma shr_carry e :
  shr (shr_record_of_loc (2 ^ 53) loc_Exact) e 1 =
  (Build_shr_record (Z.pos 4503599627370496) false false, e + 1).
Proof. reflexivity. Qed.

Lemma binary_round_aux_normal s mx ex lx n d :
  0 < d -> 0 < mx -> inbetween n d mx lx ->
  53 <= Zdigits2 mx ->
  -1021 <= Zdigits2 mx + ex <= 1023 ->
  exists mr k,
    binary_round_aux prec emax s mx ex lx = S754_finite s mr (ex + k) /\
    Zdigits2 mx - 53 <= k <= Zdigits2 mx - 52 /\
    2 ^ 52 <= Z.pos mr < 2 ^ 53 /\
    2 * n - d * 2 ^ k <= 2 * (Z.pos mr * 2 ^ k * d) <= 2 * n + d * 2 ^ k.
Proof.
  intros Hd Hmx Hin HD Hrange.
  set (D := Zdigits2 mx) in *.
  set (k1 := D - 53).
  assert (Hk1 : 0 <= k1) by (unfold k1; lia).
  assert (HP : 0 < 2 ^ k1) by (apply Z.pow_pos_nonneg; lia).
  unfold binary_round_aux, shr_fexp at 1. fold D.
  rewrite (fexp_normal (D + ex)) by lia.
  replace (D + ex - 53 - ex) with k1 by (unfold k1; lia).
  pose proof (shr_located n d (shr_record_of_loc mx lx) ex k1 Hd Hk1
                (located_of_loc n d mx lx (Z.lt_le_incl _ _ Hmx) Hin)) as [[Hm' Hloc] He'].
  destruct (shr (shr_record_of_loc mx lx) ex k1) as [mrs' e'] eqn:Eshr.
  cbn [fst snd] in *. subst e'.
  set (m' := shr_m mrs') in *. set (l' := loc_of_shr_record mrs') in *.
  set (d' := d * 2 ^ k1) in *.
  assert (Hd' : 0 < d') by (unfold d'; nia).
  pose proof (inbetween_bounds _ _ _ _ Hd Hin) as Bn.
  pose proof (inbetween_bounds _ _ _ _ Hd' Hloc) as Bn'.
  pose proof (Zdigits2_bounds mx Hmx) as BD. fold D in BD.
  assert (E53 : 2 ^ D = 2 ^ 53 * 2 ^ k1).
  { rewrite <- Z.pow_add_r by lia. f_equal. unfold k1. lia. }
  assert (E52 : 2 ^ (D - 1) = 2 ^ 52 * 2 ^ k1).
  { rewrite <- Z.pow_add_r by lia. f_equal. unfold k1. lia. }
  rewrite E53, E52 in BD.
  assert (Bm' : 2 ^ 52 <= m' < 2 ^ 53).
  { unfold d' in *. split.
    - destruct (Z_lt_le_dec m' (2 ^ 52)) as [L|]; [exfalso|assumption].
      assert ((m' + 1) * (d * 2 ^ k1) <= 2 ^ 52 * (d * 2 ^ k1))
        by (apply Z.mul_le_mono_nonneg_r; lia).
      assert (2 ^ 52 * 2 ^ k1 * d <= mx * d)
        by (apply Z.mul_le_mono_nonneg_r; lia).
      lia.
    - destruct (Z_lt_le_dec m' (2 ^ 53)) as [|L]; [assumption|exfalso].
      assert (2 ^ 53 * (d * 2 ^ k1) <= m' * (d * 2 ^ k1))
        by (apply Z.mul_le_mono_nonneg_r; lia).
      assert ((mx + 1) * d <= 2 ^ 53 * 2 ^ k1 * d)
        by (apply Z.mul_le_mono_nonneg_r; lia).
      lia. }
  pose proof (round_nearest_even_bounds _ _ _ _ Hd' Hloc) as [Bm1 Berr].
  set (m1 := round_nearest_even m' l') in *.
  unfold shr_fexp.
  destruct (Z.eq_dec m1 (2 ^ 53)) as [Ecarry|Ncarry].
  - (* the rounding carried into the next binade *)
    rewrite Ecarry.
    replace (fexp prec emax (Zdigits2 (2 ^ 53) + (ex + k1)) - (ex + k1)) with 1
      by (change (Zdigits2 (2 ^ 53)) with 54; rewrite fexp_normal; lia).
    rewrite shr_carry. cbn [shr_m].
    replace (ex + k1 + 1 <=? emax - prec) with true
      by (symmetry; apply Z.leb_le; unfold emax, prec, k1; lia).
    exists 4503599627370496%positive, (k1 + 1). split; [f_equal; lia|].
    split; [unfold k1; lia|]. split; [split; [discriminate|reflexivity]|].
    replace (2 ^ (k1 + 1)) with (2 * 2 ^ k1) by (rewrite Z.pow_add_r; lia).
    rewrite Ecarry in Berr. unfold d' in Berr. lia.
  - assert (Bm1' : 2 ^ (53 - 1) <= m1 < 2 ^ 53) by (change (53 - 1) with 52; lia).
    rewrite (Zdigits2_unique m1 53 Bm1') by lia.
    replace (fexp prec emax (53 + (ex + k1)) - (ex + k1)) with 0
      by (rewrite fexp_normal; lia).
    cbn [shr_record_of_loc shr shr_m].
    destruct m1 as [|p1|p1] eqn:Em1; try lia.
    replace (ex + k1 <=? emax - prec) with true
      by (symmetry; apply Z.leb_le; unfold emax, prec, k1; lia).
    exists p1, k1. split; [reflexivity|].
    split; [unfold k1; lia|]. split; [lia|].
    unfold d' in Berr. lia.
Qed.

Lemma binary_round_aux_exact s mx ex :
  Zdigits2 (Z.pos mx) = 53 -> -1074 <= ex <= 971 ->
  binary_round_aux prec emax s (Z.pos mx) ex loc_Exact = S754_finite s mx ex.
Proof.
  intros HD Hex. unfold binary_round_aux, shr_fexp.
  rewrite HD.
  replace (fexp prec emax (53 + ex) - ex) with 0
    by (unfold fexp, emin, prec, emax; lia).
  cbn [shr_record_of_loc shr shr_m loc_of_shr_record round_nearest_even].
  rewrite HD.
  replace (fexp prec emax (53 + ex) - ex) with 0
    by (unfold fexp, emin, prec, emax; lia).
  cbn [shr shr_m].
  replace (ex <=? emax - prec) with true
    by (symmetry; apply Z.leb_le; unfold emax, prec; lia).
  reflexivity.
Qed.

Lemma new_location_inbetween m q r :
  0 < m -> 0 <= r < m -> inbetween (q * m + r) m q (new_location m r).
Proof.
  intros Hm Hr. unfold new_location.
  destruct (Z.even m) eqn:Ev.
  - unfold new_location_even. destruct (Z.eqb_spec r 0) as [->|Nz].
    + cbv [inbetween]. lia.
    + destruct (Z.compare_spec (2 * r) m); cbv [inbetween]; lia.
  - unfold new_location_odd. destruct (Z.eqb_spec r 0) as [->|Nz].
    + cbv [inbetween]. lia.
    + assert (Od : Z.odd m = true) by (rewrite <- Z.negb_even, Ev; reflexivity).
      apply Z.odd_spec in Od. destruct Od as [h Hh].
      destruct (Z.compare_spec (2 * r + 1) m); cbv [inbetween]; lia.
Qed.

Lemma pos_iter_xO p d : Z.pos (Pos.iter xO p d) = Z.pos p * 2 ^ Z.pos d.
Proof.
  induction d as [|d IH] using Pos.peano_ind.
  - cbn [Pos.iter]. lia.
  - rewrite Pos.iter_succ, Pos2Z.inj_xO, IH, Pos2Z.inj_succ, Z.pow_succ_r by lia.
    ring.
Qed.

(** [float(w)] is exact for a positive integer below [2^53]. *)
Lemma float_of_int_exact w :
  0 < w < 2 ^ 53 ->
  exists mw ew,
    float_of_int w = inr (S754_finite false mw (- ew)) /\
    0 <= ew <= 52 /\ 2 ^ 52 <= Z.pos mw < 2 ^ 53 /\ Z.pos mw = w * 2 ^ ew.
Proof.
  intros Hw. destruct w as [|p|p]; try lia.
  unfold float_of_int, binary_normalize, binary_round.
  pose proof (digits2_pos_bounds p) as B.
  set (dw := Z.pos (digits2_pos p)) in *.
  assert (Hdw : 1 <= dw <= 53).
  { split; [unfold dw; lia|].
    destruct (Z_le_gt_dec dw 53) as [|G]; [assumption|exfalso].
    assert (2 ^ 53 <= 2 ^ (dw - 1)) by (apply Z.pow_le_mono_r; lia). lia. }
  replace (fexp prec emax (dw + 0)) with (dw - 53)
    by (unfold fexp, emin, prec, emax; lia).
  assert (Hal : exists mz, shl_align p 0 (dw - 53) = (mz, dw - 53) /\
                           Z.pos mz = Z.pos p * 2 ^ (53 - dw)).
  { unfold shl_align. destruct (dw - 53 - 0) as [|d|d] eqn:Ed; try lia.
    - exists p. split; [f_equal; lia|].
      replace (53 - dw) with 0 by lia. lia.
    - exists (Pos.iter xO p d). split; [reflexivity|].
      rewrite pos_iter_xO. f_equal. f_equal. lia. }
  destruct Hal as (mz & -> & Hmz).
  assert (Bz : 2 ^ (53 - 1) <= Z.pos mz < 2 ^ 53).
  { rewrite Hmz.
    assert (E1 : 2 ^ 53 = 2 ^ dw * 2 ^ (53 - dw))
      by (rewrite <- Z.pow_add_r by lia; f_equal; lia).
    assert (E2 : 2 ^ (53 - 1) = 2 ^ (dw - 1) * 2 ^ (53 - dw))
      by (rewrite <- Z.pow_add_r by lia; f_equal; lia).
    assert (0 < 2 ^ (53 - dw)) by (apply Z.pow_pos_nonneg; lia).
    rewrite E1, E2. nia. }
  rewrite binary_round_aux_exact
    by (try (apply Zdigits2_unique; [assumption|lia]); lia).
  exists mz, (53 - dw). split; [do 2 f_equal; lia|].
  split; [lia|]. split; [exact Bz|exact Hmz].
Qed.

(** [t / m] for [1 <= t <= m]: the result is a normal number whose distance
    to the exact quotient is at most half a unit in the last place. *)
Lemma int_truediv_round t m :
  1 <= t <= m -> m < 2 ^ 1000 ->
  exists mr er,
    int_truediv t m = inr (S754_finite false mr (- er)) /\
    0 < er <= 1052 /\ 2 ^ 52 <= Z.pos mr < 2 ^ 53 /\ Z.pos mr <= 2 ^ er /\
    2 * (t * 2 ^ er) - m <= 2 * (Z.pos mr * m) <= 2 * (t * 2 ^ er) + m.
Proof.
  intros Ht Hm.
  unfold int_truediv.
  destruct (Z.eqb_spec m 0) as [|_]; [lia|].
  destruct (Z.eqb_spec t 0) as [|_]; [lia|].
  replace (t <? 0) with false by (symmetry; apply Z.ltb_ge; lia).
  replace (m <? 0) with false by (symmetry; apply Z.ltb_ge; lia).
  rewrite !Z.abs_eq by lia. cbn [xorb].
  pose proof (Zdigits2_bounds t ltac:(lia)) as Bt.
  pose proof (Zdigits2_bounds m ltac:(lia)) as Bm.
  set (d1 := Zdigits2 t) in *. set (d2 := Zdigits2 m) in *.
  assert (Hd1 : 1 <= d1) by (unfold d1; destruct t; cbn; lia).
  assert (Hd12 : d1 <= d2).
  { destruct (Z_le_gt_dec d1 d2) as [|G]; [assumption|exfalso].
    assert (2 ^ d2 <= 2 ^ (d1 - 1)) by (apply Z.pow_le_mono_r; lia). lia. }
  assert (Hd2 : d2 <= 1000).
  { destruct (Z_le_gt_dec d2 1000) as [|G]; [assumption|exfalso].
    assert (2 ^ 1000 <= 2 ^ (d2 - 1)) by (apply Z.pow_le_mono_r; lia). lia. }
  clear Hm.
  set (s := 53 + d2 - d1).
  assert (Hs : 53 <= s) by (unfold s; lia).
  unfold SFdiv_core_binary. fold d1 d2.
  replace (Z.min (fexp prec emax (d1 + 0 - (d2 + 0))) (0 - 0)) with (- s)
    by (unfold fexp, emin, prec, emax, s; lia).
  replace (0 - 0 - - s) with s by lia.
  destruct s as [|ps|ps] eqn:Es; try lia. rewrite <- Es in *.
  rewrite Z.shiftl_mul_pow2 by lia.
  set (n := t * 2 ^ s).
  pose proof (Z.div_eucl_eq n m ltac:(lia)) as Hdiv.
  pose proof (Z.mod_pos_bound n m ltac:(lia)) as Hmod.
  unfold Z.modulo in Hmod.
  destruct (Z.div_eucl n m) as [q r]. 
  assert (Hin : inbetween n m q (new_location m r)).
  { replace n with (q * m + r) by lia. apply new_location_inbetween; lia. }
  assert (HP : 0 < 2 ^ s) by (apply Z.pow_pos_nonneg; lia).
  assert (E1 : 2 ^ (52 + d2) = 2 ^ (d1 - 1) * 2 ^ s)
    by (rewrite <- Z.pow_add_r by lia; f_equal; unfold s in *; lia).
  assert (E2 : 2 ^ (52 + d2) = 2 ^ 53 * 2 ^ (d2 - 1))
    by (rewrite <- Z.pow_add_r by lia; f_equal; lia).
  assert (E3 : 2 ^ d1 * 2 ^ s = 2 ^ 53 * 2 ^ d2)
    by (rewrite <- !Z.pow_add_r by lia; f_equal; unfold s in *; lia).
  assert (E4 : 2 ^ d2 = 2 * 2 ^ (d2 - 1))
    by (rewrite <- Z.pow_succ_r by lia; f_equal; lia).
  assert (Bq : 2 ^ 52 <= q < 2 ^ 54).
  { assert (L1 : 2 ^ (d1 - 1) * 2 ^ s <= n)
      by (unfold n; apply Z.mul_le_mono_nonneg_r; lia).
    assert (L2 : n < 2 ^ d1 * 2 ^ s)
      by (unfold n; apply Z.mul_lt_mono_pos_r; lia).
    split.
    - destruct (Z_lt_le_dec q (2 ^ 52)) as [L|]; [exfalso|assumption].
      assert ((q + 1) * m <= 2 ^ 52 * m) by (apply Z.mul_le_mono_nonneg_r; lia).
      assert (2 ^ 52 * m < 2 ^ 52 * (2 * 2 ^ (d2 - 1))) by (apply Z.mul_lt_mono_pos_l; lia).
      lia.
    - destruct (Z_lt_le_dec q (2 ^ 54)) as [|L]; [assumption|exfalso].
      assert (2 ^ 54 * m <= q * m) by (apply Z.mul_le_mono_nonneg_r; lia).
      assert (2 ^ 54 * 2 ^ (d2 - 1) <= 2 ^ 54 * m) by (apply Z.mul_le_mono_nonneg_l; lia).
      lia. }
  assert (Hq : 0 < q) by lia.
  pose proof (Zdigits2_bounds q Hq) as BD.
  set (D := Zdigits2 q) in *.
  assert (HD : 53 <= D <= 54).
  { split.
    - destruct (Z_le_gt_dec 53 D) as [|G]; [assumption|exfalso].
      assert (2 ^ D <= 2 ^ 52) by (apply Z.pow_le_mono_r; [lia|]; lia). lia.
    - destruct (Z_le_gt_dec D 54) as [|G]; [assumption|exfalso].
      assert (2 ^ 54 <= 2 ^ (D - 1)) by (apply Z.pow_le_mono_r; lia). lia. }
  destruct (binary_round_aux_normal false q (- s) (new_location m r) n m)
    as (mr & k & Hres & Hk & Bmr & Herr);
    try exact Hin; try (fold D; unfold s in *; lia).
  fold D in Hk. rewrite Hres.
  exists mr, (s - k).
  assert (HK : 0 < 2 ^ k) by (apply Z.pow_pos_nonneg; lia).
  assert (EK : 2 ^ s = 2 ^ (s - k) * 2 ^ k)
    by (rewrite <- Z.pow_add_r by lia; f_equal; lia).
  assert (HE : 0 < 2 ^ (s - k)) by (apply Z.pow_pos_nonneg; lia).
  assert (Herr' : 2 * (t * 2 ^ (s - k)) - m <= 2 * (Z.pos mr * m)
                  <= 2 * (t * 2 ^ (s - k)) + m).
  { unfold n in Herr. rewrite EK in Herr.
    split; apply Z.mul_le_mono_pos_r with (p := 2 ^ k); try assumption; lia. }
  split; [do 2 f_equal; lia|]. split; [unfold s in *; lia|]. split; [exact Bmr|].
  split; [|exact Herr'].
  (* the quotient is at most one, hence the mantissa is at most [2^er] *)
  assert (t * 2 ^ (s - k) <= m * 2 ^ (s - k)) by (apply Z.mul_le_mono_nonneg_r; lia).
  destruct (Z_le_gt_dec (Z.pos mr) (2 ^ (s - k))) as [|G]; [assumption|exfalso].
  assert ((2 ^ (s - k) + 1) * m <= Z.pos mr * m) by (apply Z.mul_le_mono_nonneg_r; lia).
  lia.
Qed.

Lemma float_mul_comm x y : float_mul x y = float_mul y x.
Proof.
  destruct x as [sx|sx| |sx mx ex], y as [sy|sy| |sy my ey];
    cbn [float_mul SFmul]; rewrite ?(xorb_comm sy sx); try reflexivity.
  now rewrite (Pos.mul_comm my mx), (Z.add_comm ey ex).
Qed.

(** The product of two normal numbers, away from overflow and underflow. *)
Lemma float_mul_round sx mx ex sy my ey :
  2 ^ 52 <= Z.pos mx < 2 ^ 53 -> 2 ^ 52 <= Z.pos my < 2 ^ 53 ->
  -1126 <= ex + ey <= 917 ->
  exists mp k,
    float_mul (S754_finite sx mx ex) (S754_finite sy my ey)
    = S754_finite (xorb sx sy) mp (ex + ey + k) /\
    52 <= k <= 54 /\ 2 ^ 52 <= Z.pos mp < 2 ^ 53 /\
    2 * (Z.pos mx * Z.pos my) - 2 ^ k <= 2 * (Z.pos mp * 2 ^ k)
    <= 2 * (Z.pos mx * Z.pos my) + 2 ^ k.
Proof.
  intros Bx By Hexp. cbn [float_mul SFmul].
  set (n := Z.pos mx * Z.pos my).
  assert (Bn : 2 ^ 104 <= n < 2 ^ 106).
  { unfold n. change (2 ^ 104) with (2 ^ 52 * 2 ^ 52).
    change (2 ^ 106) with (2 ^ 53 * 2 ^ 53). nia. }
  pose proof (Zdigits2_bounds n ltac:(lia)) as BD.
  set (D := Zdigits2 n) in *.
  assert (HD : 105 <= D <= 106).
  { split.
    - destruct (Z_le_gt_dec 105 D) as [|G]; [assumption|exfalso].
      assert (2 ^ D <= 2 ^ 104) by (apply Z.pow_le_mono_r; [lia|]; lia). lia.
    - destruct (Z_le_gt_dec D 106) as [|G]; [assumption|exfalso].
      assert (2 ^ 106 <= 2 ^ (D - 1)) by (apply Z.pow_le_mono_r; lia). lia. }
  destruct (binary_round_aux_normal (xorb sx sy) n (ex + ey) loc_Exact n 1)
    as (mp & k & Hres & Hk & Bmp & Herr);
    try (cbv [inbetween]; fold D; lia).
  fold D in Hk. change (Z.pos (mx * my)) with n. rewrite Hres.
  exists mp, k. split; [reflexivity|]. split; [lia|]. split; [exact Bmp|].
  fold n. lia.
Qed.

Lemma int_of_float_floor m e :
  0 < e ->
  exists N, int_of_float (S754_finite false m (- e)) = inr N /\
            N * 2 ^ e <= Z.pos m < (N + 1) * 2 ^ e.
Proof.
  intros He. destruct e as [|p|p]; try lia.
  cbn [int_of_float Z.opp].
  exists (Z.pos m / 2 ^ Z.pos p). split; [reflexivity|].
  assert (HP : 0 < 2 ^ Z.pos p) by (apply Z.pow_pos_nonneg; lia).
  pose proof (Z.mul_div_le (Z.pos m) _ HP).
  pose proof (Z.mul_succ_div_gt (Z.pos m) _ HP). lia.
Qed.

(** The arithmetic behind [scale_round], at the common scale [2 * J * K]:
    [mr / E] approximates [t / m], [mp / J] approximates [w * mr / E], and
    [N] is the integer part of [mp / J]. *)
Lemma scale_arith m N J K mp w A mr t E :
  0 < m -> 0 < J -> 0 < K -> 0 < A -> 0 < E -> 0 <= w < E ->
  N * J <= mp < (N + 1) * J ->
  2 * (w * A * mr) - K <= 2 * (mp * K) <= 2 * (w * A * mr) + K ->
  2 * (t * E) - m <= 2 * (mr * m) <= 2 * (t * E) + m ->
  A * E = J * K ->
  m * N < w * t + m /\ w * t < m * (N + 2).
Proof.
  intros Hm HJ HK HA HE Hw BN Hperr Herr EJK.
  assert (HJK : 0 < J * K) by (apply Z.mul_pos_pos; assumption).
  assert (HwA : 0 <= w * A) by (apply Z.mul_nonneg_nonneg; lia).
  assert (S1 : m * (N * J) * K <= m * mp * K)
    by (apply Z.mul_le_mono_nonneg_r; [lia|apply Z.mul_le_mono_nonneg_l; lia]).
  assert (S2 : m * (mp + 1) * K <= m * ((N + 1) * J) * K)
    by (apply Z.mul_le_mono_nonneg_r; [lia|apply Z.mul_le_mono_nonneg_l; lia]).
  assert (S3 : m * (2 * (mp * K)) <= m * (2 * (w * A * mr) + K))
    by (apply Z.mul_le_mono_nonneg_l; lia).
  assert (S4 : m * (2 * (w * A * mr) - K) <= m * (2 * (mp * K)))
    by (apply Z.mul_le_mono_nonneg_l; lia).
  assert (S5 : w * A * (2 * (mr * m)) <= w * A * (2 * (t * E) + m))
    by (apply Z.mul_le_mono_nonneg_l; lia).
  assert (S6 : w * A * (2 * (t * E) - m) <= w * A * (2 * (mr * m)))
    by (apply Z.mul_le_mono_nonneg_l; lia).
  assert (S7 : m * (w * A) < m * (J * K)).
  { rewrite <- EJK. apply Z.mul_lt_mono_pos_l; [lia|].
    rewrite (Z.mul_comm w A). apply Z.mul_lt_mono_pos_l; lia. }
  assert (S8 : m * K <= m * (J * K)).
  { apply Z.mul_le_mono_nonneg_l; [lia|]. rewrite <- (Z.mul_1_l K) at 1.
    apply Z.mul_le_mono_nonneg_r; lia. }
  assert (E9 : w * A * (2 * (t * E)) = 2 * (w * t) * (J * K))
    by (rewrite <- EJK; ring).
  assert (P9 : 0 < m * (J * K)) by (apply Z.mul_pos_pos; assumption).
  assert (P10 : 0 < m * K) by (apply Z.mul_pos_pos; assumption).
  split.
  - apply Z.mul_lt_mono_pos_r with (p := 2 * (J * K)); [lia|].
    clear - S1 S3 S5 S7 S8 E9 P9. lia.
  - apply Z.mul_lt_mono_pos_r with (p := 2 * (J * K)); [lia|].
    clear - S2 S4 S6 S7 S8 E9 P9 P10. lia.
Qed.

(** A product [w * (mr / E)] with [w <= 2^51] and [mr <= E] stays below
    [2^52]: a mantissa [mp >= 2^52] at scale [K >= A * E] cannot round it. *)
Lemma product_needs_negative_exponent w A E K mr mp :
  0 < A -> 0 < E -> 0 < K -> 0 <= w <= 2 ^ 51 -> 0 <= mr <= E ->
  A * E <= K -> 2 ^ 52 <= mp ->
  2 * (mp * K) <= 2 * (w * A * mr) + K -> False.
Proof.
  intros HA HE HK Hw Hmr HAE Hmp Hperr.
  assert (HwA : 0 <= w * A) by (apply Z.mul_nonneg_nonneg; lia).
  assert (S1 : w * A * mr <= w * A * E) by (apply Z.mul_le_mono_nonneg_l; lia).
  assert (S2 : w * (A * E) <= 2 ^ 51 * (A * E))
    by (apply Z.mul_le_mono_nonneg_r; [apply Z.mul_nonneg_nonneg|]; lia).
  assert (S3 : 2 ^ 51 * (A * E) <= 2 ^ 51 * K)
    by (apply Z.mul_le_mono_nonneg_l; lia).
  assert (S4 : 2 ^ 52 * K <= mp * K) by (apply Z.mul_le_mono_nonneg_r; lia).
  assert (E5 : w * A * E = w * (A * E)) by ring.
  change (2 ^ 52) with (2 * 2 ^ 51) in S4.
  clear - HK S1 S2 S3 S4 E5 Hperr. lia.
Qed.

(** [int(w * (t / m))]: the three roundings together lose less than one
    pixel on either side of the exact quotient [w * t / m]. *)
Lemma scale_round w t m :
  0 <= w < 2 ^ 51 -> 1 <= t <= m -> m < 2 ^ 1000 ->
  exists r p N,
    int_truediv t m = inr r /\ int_mul_float w r = inr p /\
    int_of_float p = inr N /\
    0 <= N /\ m * N < w * t + m /\ w * t < m * (N + 2).
Proof.
  intros Hw Ht Hm.
  destruct (int_truediv_round t m Ht Hm)
    as (mr & er & Hr & Her & Bmr & HmrE & Herr).
  clear Hm.
  exists (S754_finite false mr (- er)).
  destruct (Z.eq_dec w 0) as [->|Hw0].
  { exists (S754_zero false), 0.
    repeat split; try assumption; try reflexivity; lia. }
  destruct (float_of_int_exact w) as (mw & ew & Hfw & Hew & Bmw & Emw).
  { change (2 ^ 53) with (4 * 2 ^ 51). lia. }
  destruct (float_mul_round false mw (- ew) false mr (- er) Bmw Bmr ltac:(lia))
    as (mp & k & Hp & Hk & Bmp & Hperr).
  cbn [xorb] in Hp. rewrite Emw in Hperr.
  set (A := 2 ^ ew) in *. set (E := 2 ^ er) in *. set (K := 2 ^ k) in *.
  assert (HA : 0 < A) by (apply Z.pow_pos_nonneg; lia).
  assert (HE : 0 < E) by (apply Z.pow_pos_nonneg; lia).
  assert (HK : 0 < K) by (apply Z.pow_pos_nonneg; lia).
  assert (HwE : w < E).
  { apply Z.lt_le_trans with (2 ^ 51); [lia|].
    apply Z.le_trans with (2 ^ 52); [discriminate|lia]. }
  (* the product lies below [2^53], hence its exponent is negative *)
  assert (Hj : 0 < ew + er - k).
  { destruct (Z_lt_le_dec 0 (ew + er - k)) as [|L]; [assumption|exfalso].
    assert (EK : K = A * E * 2 ^ (k - ew - er)).
    { unfold K, A, E. rewrite <- !Z.pow_add_r by lia. f_equal. lia. }
    assert (0 < 2 ^ (k - ew - er)) by (apply Z.pow_pos_nonneg; lia).
    assert (A * E <= K).
    { rewrite EK. rewrite <- (Z.mul_1_r (A * E)) at 1.
      apply Z.mul_le_mono_nonneg_l; [apply Z.mul_nonneg_nonneg|]; lia. }
    apply (product_needs_negative_exponent w A E K (Z.pos mr) (Z.pos mp));
      try assumption; lia. }
  set (j := ew + er - k) in *.
  destruct (int_of_float_floor mp j Hj) as (N & HN & BN).
  set (J := 2 ^ j) in *.
  assert (HJ : 0 < J) by (apply Z.pow_pos_nonneg; lia).
  assert (EJK : A * E = J * K).
  { unfold A, E, J, K. rewrite <- !Z.pow_add_r by lia. f_equal. unfold j. lia. }
  exists (S754_finite false mp (- j)), N.
  split; [exact Hr|]. split.
  { unfold int_mul_float. rewrite Hfw, Hp. do 2 f_equal. unfold j. lia. }
  split; [exact HN|].
  assert (HN0 : 0 <= N).
  { destruct (Z_le_gt_dec 0 N) as [|G]; [assumption|exfalso].
    assert ((N + 1) * J <= 0) by (apply Z.mul_nonpos_nonneg; lia). lia. }
  split; [exact HN0|].
  apply (scale_arith m N J K (Z.pos mp) w A (Z.pos mr) t E);
    try assumption; lia.
Qed.

End PyNumFacts.

(** ** Glob patterns and file names *)
Module PyStrFacts.

Import PyStr Spec.
Local Open Scope string_scope.

Lemma last_char_append stem tail :
  tail <> EmptyString -> last_char (stem ++ tail) = last_char tail.
Proof.
  intros Hne. induction stem as [|c stem IH]; [reflexivity|].
  cbn [append last_char]. rewrite IH.
  destruct tail as [|a tail]; [congruence|].
  cbn [last_char]. now destruct (last_char tail).
Qed.

Lemma ends_with_last_char s tail :
  tail <> EmptyString -> ends_with s tail -> last_char s = last_char tail.
Proof. intros Hne [stem ->]. now apply last_char_append. Qed.

Lemma match_literals l : forall s,
  match_toks true (map Lit l) s = true <-> s = string_of_list_ascii l.
Proof.
  induction l as [|c l IH]; intros s; cbn [map match_toks string_of_list_ascii].
  - destruct s; split; congruence.
  - destruct s as [|a s]; [split; congruence|].
    unfold chr_eq. rewrite andb_true_iff, IH.
    split.
    + intros [Ha ->]. apply Ascii.eqb_eq in Ha. now subst.
    + intros [= -> ->]. split; [apply Ascii.eqb_refl|reflexivity].
Qed.

Lemma match_star_literals l s :
  match_toks true (Star :: map Lit l) s = true <->
  ends_with s (string_of_list_ascii l).
Proof.
  cbn [match_toks].
  induction s as [|a s IH].
  - rewrite orb_false_r, match_literals. split.
    + intros ->. now exists EmptyString.
    + intros [stem H]. destruct stem; [exact H|discriminate].
  - rewrite orb_true_iff, match_literals, IH. split.
    + intros [->|[stem ->]].
      * now exists EmptyString.
      * now exists (String a stem).
    + intros [stem H]. destruct stem as [|c stem].
      * left. exact H.
      * right. injection H as -> ->. now exists stem.
Qed.

Lemma fnmatch_jpg s : fnmatch true "*.jpg" s = true <-> ends_with s ".jpg".
Proof. apply (match_star_literals ["."; "j"; "p"; "g"]%char). Qed.

Lemma fnmatch_jpeg s : fnmatch true "*.jpeg" s = true <-> ends_with s ".jpeg".
Proof. apply (match_star_literals ["."; "j"; "p"; "e"; "g"]%char). Qed.

Lemma fnmatch_png s : fnmatch true "*.png" s = true <-> ends_with s ".png".
Proof. apply (match_star_literals ["."; "p"; "n"; "g"]%char). Qed.


Lemma upper_case_not_image_name stem : ~ image_name (stem ++ ".JPG").
Proof.
  intros [H|[H|H]]; apply ends_with_last_char in H; try discriminate;
    rewrite last_char_append in H; discriminate.
Qed.

End PyStrFacts.

(** ** The worker *)
Module WorkerFacts.

Import PyNum PyStr Worker Spec PyNumFacts PyStrFacts.
Local Open Scope string_scope.
Local Open Scope Z_scope.

Section ProcessImage.

Context {P : Platform}.

(** [flatten] reads and writes nothing outside. *)
Lemma flatten_pure new_img w r w' t :
  flatten new_img w = (r, w', t) -> w' = w /\ t = [].
Proof.
  unfold flatten, bind, lift, ret.
  destruct (str_in _ _).
  - destruct (Image_new _ _ _) as [e|bg]; [intros [= <- <- <-]; auto|].
    destruct (String.eqb _ _).
    + destruct (im_last_band _) as [e|mask]; [intros [= <- <- <-]; auto|].
      intros [= <- <- <-]; auto.
    + intros [= <- <- <-]; auto.
  - intros [= <- <- <-]; auto.
Qed.

Lemma flatten_size {L : Pillow P} new_img w out w' t :
  flatten new_img w = (inr out, w', t) -> im_size out = im_size new_img.
Proof.
  unfold flatten, bind, lift, ret.
  destruct (str_in _ _).
  - destruct (Image_new _ _ _) as [e|bg] eqn:Enew; [discriminate|].
    apply new_size_mode in Enew. destruct Enew as [Es _].
    destruct (String.eqb _ _).
    + destruct (im_last_band _) as [e|mask]; [discriminate|].
      destruct (im_paste _ _ _) as [e|bg'] eqn:Ep; [discriminate|].
      intros [= <- <- <-]. apply paste_size in Ep. congruence.
    + destruct (im_paste _ _ _) as [e|bg'] eqn:Ep; [discriminate|].
      intros [= <- <- <-]. apply paste_size in Ep. congruence.
  - intros [= <- <- <-]. reflexivity.
Qed.

(** A successful pass through lines 77-92 made exactly one [save] call. *)
Lemma encode_ok self new_img dest w w' t :
  encode self new_img dest w = (inr tt, w', t) ->
  exists out fmt quality,
    t = [Save out dest fmt quality true] /\
    im_save out dest fmt quality true w = (inr tt, w') /\
    if str_in (lower (suffix (name dest))) [".jpg"; ".jpeg"]
    then fmt = JPEG /\ quality = Some (jpeg_quality self) /\
         flatten new_img w = (inr out, w, [])
    else fmt = PNG /\ quality = None /\ out = new_img.
Proof.
  unfold encode. destruct (str_in _ _).
  - unfold bind at 1.
    destruct (flatten new_img w) as [[[e|out] w1] t1] eqn:Ef; [discriminate|].
    destruct (flatten_pure _ _ _ _ _ Ef) as [-> ->].
    unfold save, bind, emit, call.
    destruct (im_save out dest JPEG _ true w) as [[e|[]] w2] eqn:Es;
      [discriminate|].
    intros [= <- <-]. exists out, JPEG, (Some (jpeg_quality self)). auto.
  - unfold save, bind, emit, call.
    destruct (im_save new_img dest PNG None true w) as [[e|[]] w2] eqn:Es;
      [discriminate|].
    intros [= <- <-]. exists new_img, PNG, None. auto.
Qed.

(** What a successful pass through lines 55-94 did. *)
Lemma process_image_ok self output_path img_path w w' t :
  process_image self output_path img_path w = (inr tt, w', t) ->
  exists img new_img dest t0,
    Image_open img_path w = inr img /\
    resized self (im_clear_info img) = inr new_img /\
    save_path_of self output_path img_path = inr dest /\
    encode self (im_clear_info new_img) dest w = (inr tt, w', t0) /\
    t = (t0 ++ [Log ("Processed: " ++ name img_path)])%list.
Proof.
  unfold process_image, bind, read_result, lift, emit.
  destruct (Image_open img_path w) as [e|img] eqn:Eo; [discriminate|].
  destruct (resized self (im_clear_info img)) as [e|new_img] eqn:Er;
    [discriminate|].
  destruct (save_path_of self output_path img_path) as [e|dest] eqn:Ed;
    [discriminate|].
  destruct (encode self (im_clear_info new_img) dest w) as [[[e|[]] w1] t1] eqn:Ee;
    [discriminate|].
  intros [= <- <-]. exists img, new_img, dest, t1. cbn [app].
  repeat split; auto.
Qed.

Lemma save_path_name self output_path img_path dest :
  save_path_of self output_path img_path = inr dest ->
  name dest = name img_path.
Proof.
  unfold save_path_of. destruct (overwrite self).
  - now intros [= <-].
  - destruct output_path; [now intros [= <-]|discriminate].
Qed.


Lemma encode_events self new_img dest w :
  Forall (file_event (name dest)) (events (encode self new_img dest) w).
Proof.
  unfold events, encode. destruct (str_in _ _).
  - unfold bind at 1.
    destruct (flatten new_img w) as [[[e|out] w1] t1] eqn:Ef;
      destruct (flatten_pure _ _ _ _ _ Ef) as [-> ->]; cbn [snd]; [constructor|].
    unfold save, bind, emit, call.
    destruct (im_save _ _ _ _ _ _) as [[e|[]] w2]; cbn; repeat constructor.
  - unfold save, bind, emit, call.
    destruct (im_save _ _ _ _ _ _) as [[e|[]] w2]; cbn; repeat constructor.
Qed.

Lemma process_image_events self output_path img_path w :
  Forall (file_event (name img_path))
         (events (process_image self output_path img_path) w).
Proof.
  unfold events, process_image, bind, read_result, lift, emit.
  destruct (Image_open img_path w) as [e|img]; [constructor|].
  destruct (resized self (im_clear_info img)) as [e|new_img]; [constructor|].
  destruct (save_path_of self output_path img_path) as [e|dest] eqn:Ed;
    [constructor|].
  pose proof (encode_events self (im_clear_info new_img) dest w) as H.
  unfold events in H. rewrite (save_path_name _ _ _ _ Ed) in H.
  destruct (encode self (im_clear_info new_img) dest w) as [[[e|[]] w1] t1];
    cbn [snd app] in *; [assumption|].
  apply Forall_app. split; [assumption|]. repeat constructor.
Qed.

End ProcessImage.

(** Lines 66-67 never raise on an image that exceeds the target, and each
    new side is less than one pixel away from the exact proportion. *)
Lemma new_size_round t w h m :
  1 <= t < m -> m < 2 ^ 31 -> 0 <= w <= m -> 0 <= h <= m ->
  exists nw nh,
    new_size t w h m = inr (nw, nh) /\
    (0 <= nw /\ m * nw < w * t + m /\ w * t < m * (nw + 2)) /\
    (0 <= nh /\ m * nh < h * t + m /\ h * t < m * (nh + 2)).
Proof.
  intros Ht Hm Hw Hh.
  assert (B51 : 2 ^ 31 < 2 ^ 51) by reflexivity.
  assert (B1000 : 2 ^ 31 < 2 ^ 1000) by reflexivity.
  destruct (scale_round w t m) as (r & pw & nw & Hr & Hpw & Hnw & Bw); try lia.
  destruct (scale_round h t m) as (r' & ph & nh & Hr' & Hph & Hnh & Bh); try lia.
  assert (r' = r) by congruence. subst r'.
  exists nw, nh. unfold new_size. rewrite Hr, Hpw, Hnw, Hph, Hnh.
  repeat split; lia.
Qed.

Lemma within_one_pixel m x t n :
  0 < m -> m * n < x * t + m -> x * t < m * (n + 2) ->
  Z.abs (n - x * t / m) <= 1.
Proof.
  intros Hm H1 H2.
  pose proof (Z.mul_div_le (x * t) m Hm).
  pose proof (Z.mul_succ_div_gt (x * t) m Hm).
  assert (n < x * t / m + 2) by nia.
  assert (x * t / m < n + 2) by nia.
  lia.
Qed.

Section Claims.

Context {P : Platform} {L : Pillow P}.

(** C1. An image whose longest side does not exceed the target size is
    copied, not resized: the one image a successful pass hands to the
    encoder is the copy, flattened for JPEG if need be, and has the
    dimensions of the input image. *)
Theorem small_image_keeps_size self output_path img_path w w' t img :
  Image_open img_path w = inr img ->
  Z.max (fst (im_size img)) (snd (im_size img)) <= target_size self ->
  process_image self output_path img_path w = (inr tt, w', t) ->
  exists new_img out dest fmt quality,
    im_copy (im_clear_info img) = inr new_img /\
    (out = im_clear_info new_img \/
     flatten (im_clear_info new_img) w = (inr out, w, [])) /\
    t = [Save out dest fmt quality true;
         Log ("Processed: " ++ name img_path)] /\
    im_size out = im_size img.
Proof.
  intros Hopen Hmax Hrun.
  destruct (process_image_ok _ _ _ _ _ _ Hrun)
    as (img0 & new_img & dest & t0 & Ho & Hr & Hd & He & ->).
  assert (img0 = img) by congruence. subst img0.
  destruct (encode_ok _ _ _ _ _ _ He) as (out & fmt & q & -> & _ & Hfmt).
  assert (Hcopy : im_copy (im_clear_info img) = inr new_img).
  { unfold resized in Hr. rewrite clear_info_size in Hr.
    destruct (im_size img) as [width height] eqn:Es. cbn [fst snd] in Hmax.
    destruct (Z.leb_spec (Z.max width height) (target_size self)); [|lia].
    exact Hr. }
  assert (Hnew : im_size new_img = im_size img).
  { apply copy_size in Hcopy. now rewrite Hcopy, clear_info_size. }
  exists new_img, out, dest, fmt, q. split; [exact Hcopy|].
  destruct (str_in _ _).
  - destruct Hfmt as (_ & _ & Hf). split; [now right|].
    split; [reflexivity|]. apply flatten_size in Hf.
    now rewrite Hf, clear_info_size.
  - destruct Hfmt as (_ & _ & ->). split; [now left|].
    split; [reflexivity|]. now rewrite clear_info_size.
Qed.

(** C2. An image whose longest side exceeds the target size is resized to
    [(int(width * ratio), int(height * ratio))]: the longest side of the
    result is the target size or one pixel less, and each side is within
    one pixel of the exact proportion [side * target / longest]. *)
Theorem large_image_scaled self output_path img_path w w' t img :
  1 <= target_size self ->
  Image_open img_path w = inr img ->
  target_size self < Z.max (fst (im_size img)) (snd (im_size img)) ->
  process_image self output_path img_path w = (inr tt, w', t) ->
  let width := fst (im_size img) in
  let height := snd (im_size img) in
  let longest := Z.max width height in
  exists out dest fmt quality nw nh,
    t = [Save out dest fmt quality true;
         Log ("Processed: " ++ name img_path)] /\
    im_size out = (nw, nh) /\
    new_size (target_size self) width height longest = inr (nw, nh) /\
    target_size self - 1 <= Z.max nw nh <= target_size self /\
    Z.abs (nw - width * target_size self / longest) <= 1 /\
    Z.abs (nh - height * target_size self / longest) <= 1.
Proof.
  intros Ht Hopen Hmax Hrun width height longest.
  destruct (process_image_ok _ _ _ _ _ _ Hrun)
    as (img0 & new_img & dest & t0 & Ho & Hr & Hd & He & ->).
  assert (img0 = img) by congruence. subst img0.
  destruct (encode_ok _ _ _ _ _ _ He) as (out & fmt & q & -> & _ & Hfmt).
  destruct (size_range img) as [Bw Bh]. fold width height in Bw, Bh.
  destruct (new_size_round (target_size self) width height longest)
    as (nw & nh & Hns & (Hw0 & Hw1 & Hw2) & (Hh0 & Hh1 & Hh2));
    try (unfold longest in *; lia).
  exists out, dest, fmt, q, nw, nh. split; [reflexivity|].
  assert (Hnew : im_size new_img = (nw, nh)).
  { unfold resized in Hr. rewrite clear_info_size in Hr.
    subst longest width height.
    destruct (im_size img) as [wd ht]. cbn [fst snd] in *.
    destruct (Z.leb_spec (Z.max wd ht) (target_size self)); [lia|].
    rewrite Hns in Hr. now apply resize_size in Hr. }
  split.
  { destruct (str_in _ _).
    - destruct Hfmt as (_ & _ & Hf). apply flatten_size in Hf.
      now rewrite Hf, clear_info_size.
    - destruct Hfmt as (_ & _ & ->). now rewrite clear_info_size. }
  split; [exact Hns|].
  assert (Hl : 0 < longest) by (unfold longest in *; lia).
  split; [|split; apply within_one_pixel; assumption].
  assert (Hcases : longest = width \/ longest = height)
    by (unfold longest; lia).
  assert (nw <= target_size self) by (unfold longest in *; nia).
  assert (nh <= target_size self) by (unfold longest in *; nia).
  split; [|lia].
  destruct Hcases as [E|E]; rewrite <- E in *.
  - assert (target_size self < nw + 2) by nia. lia.
  - assert (target_size self < nh + 2) by nia. lia.
Qed.

End Claims.

(** Line 98 never raises, and the value is the exact percentage or one
    less. *)
Lemma percent_round i total :
  0 <= i < total -> total < 2 ^ 63 ->
  exists p, percent i total = inr p /\
            0 <= p /\ total * p < 100 * (i + 1) + total /\
            100 * (i + 1) < total * (p + 2).
Proof.
  intros Hi Ht.
  assert (B : 2 ^ 63 < 2 ^ 1000) by reflexivity.
  destruct (scale_round 100 (i + 1) total) as (r & f & p & Hr & Hf & Hp & Bp);
    try lia.
  exists p. unfold percent. rewrite Hr.
  unfold float_mul_int. unfold int_mul_float in Hf.
  destruct (float_of_int 100) as [e|c]; [discriminate|].
  rewrite float_mul_comm. injection Hf as ->. rewrite Hp. split; [reflexivity|lia].
Qed.

Section Loop.

Context {P : Platform}.

Variable self : Worker.
Variable output_path : option string.
Variable total : Z.


Lemma iteration_processed i f w w1 t p :
  process_image self output_path f w = (inr tt, w1, t) ->
  percent i total = inr p ->
  iteration self output_path total i f w = (inr tt, w1, (t ++ [Progress p])%list).
Proof.
  intros Hp Hpc. unfold iteration, bind, try_except, lift, emit.
  rewrite Hp, Hpc. cbn [app]. reflexivity.
Qed.

Lemma iteration_failed i f w w1 e t p :
  process_image self output_path f w = (inl e, w1, t) ->
  percent i total = inr p ->
  iteration self output_path total i f w =
  (inr tt, w1,
   (t ++ [Log ("Error with " ++ name f ++ ": " ++ str e); Progress p])%list).
Proof.
  intros Hp Hpc. unfold iteration, bind, try_except, lift, emit.
  rewrite Hp, Hpc. cbn [app]. now rewrite <- app_assoc.
Qed.

Lemma loop_visits files : forall i w,
  0 <= i -> i + Z.of_nat (List.length files) <= total -> total < 2 ^ 63 ->
  exists w2 t,
    for_enumerate (iteration self output_path total) i files w = (inr tt, w2, t) /\
    visits self output_path total i files w w2 t.
Proof.
  induction files as [|f fs IH]; intros i w Hi Hlen Ht.
  - exists w, []. split; [reflexivity|constructor].
  - cbn [List.length] in Hlen. rewrite Nat2Z.inj_succ in Hlen.
    destruct (percent_round i total) as (p & Hp & _); try lia.
    destruct (process_image self output_path f w) as [[[e|[]] w1] t1] eqn:Epi.
    + destruct (IH (i + 1) w1) as (w2 & t & Hloop & Hv); try lia.
      exists w2, (t1 ++ [Log ("Error with " ++ name f ++ ": " ++ str e); Progress p] ++ t)%list.
      split.
      * cbn [for_enumerate]. unfold bind at 1.
        rewrite (iteration_failed _ _ _ _ _ _ _ Epi Hp), Hloop.
        now rewrite <- !app_assoc.
      * eapply visits_failed; eassumption.
    + destruct (process_image_ok _ _ _ _ _ _ Epi)
        as (img & new_img & dest & t0 & _ & _ & _ & _ & Et1).
      destruct (IH (i + 1) w1) as (w2 & t & Hloop & Hv); try lia.
      exists w2, (t0 ++ [Log ("Processed: " ++ name f); Progress p] ++ t)%list.
      split.
      * cbn [for_enumerate]. unfold bind at 1.
        rewrite (iteration_processed _ _ _ _ _ _ Epi Hp), Hloop, Et1.
        now rewrite <- !app_assoc.
      * rewrite Et1 in Epi. eapply visits_processed; eassumption.
Qed.

End Loop.

Section Run.

Context {P : Platform}.




Lemma image_files_eq self w :
  image_files self w = (inr (enumerated self w), w, []).
Proof. reflexivity. Qed.

Lemma ensure_output_dir_eq self w :
  ensure_output_dir self (output_path_of self) w =
  if negb (overwrite self) && negb (path_exists (output_dir self) w)
  then (fst (path_mkdir (output_dir self) w),
        snd (path_mkdir (output_dir self) w), [MkDir (output_dir self)])
  else (inr tt, w, []).
Proof.
  unfold ensure_output_dir, output_path_of.
  destruct (overwrite self); cbn [negb andb]; [reflexivity|].
  unfold bind, read, emit, call.
  destruct (path_exists (output_dir self) w); cbn [negb andb]; [reflexivity|].
  now destruct (path_mkdir (output_dir self) w) as [[e|[]] w1].
Qed.

Lemma file_event_loop_event f files e :
  In f files -> file_event (name f) e -> loop_event files e.
Proof.
  intros Hin. destruct e; cbn; try tauto.
  intros ->. now apply in_map.
Qed.

Lemma iteration_events self output_path total i f files w :
  In f files ->
  Forall (loop_event files) (events (iteration self output_path total i f) w).
Proof.
  intros Hin. unfold events, iteration, bind, try_except, lift, emit.
  pose proof (process_image_events self output_path f w) as Hpi.
  unfold events in Hpi.
  assert (Hpi' : Forall (loop_event files)
                   (snd (process_image self output_path f w))).
  { eapply Forall_impl; [|exact Hpi]. intros e. now apply file_event_loop_event. }
  destruct (process_image self output_path f w) as [[[e|[]] w1] t1];
    cbn [snd] in *; destruct (percent i total) as [e'|p]; cbn [snd app];
    repeat (apply Forall_app; split); try assumption; repeat constructor.
Qed.

Lemma loop_event_incl files files' e :
  incl files files' -> loop_event files e -> loop_event files' e.
Proof.
  intros Hincl. destruct e; cbn; try tauto.
  rewrite !in_map_iff. intros (f & Hf & Hin). exists f. auto.
Qed.

Lemma loop_events self output_path total files : forall i w,
  Forall (loop_event files)
         (events (for_enumerate (iteration self output_path total) i files) w).
Proof.
  induction files as [|f fs IH]; intros i w; [constructor|].
  unfold events. cbn [for_enumerate]. unfold bind.
  pose proof (iteration_events self output_path total i f (f :: fs) w
                (or_introl eq_refl)) as Hit.
  unfold events in Hit.
  destruct (iteration self output_path total i f w) as [[[e|[]] w1] t1];
    cbn [snd] in *; [assumption|].
  specialize (IH (i + 1) w1). unfold events in IH.
  destruct (for_enumerate _ (i + 1) fs w1) as [[r w2] t2]. cbn [snd] in *.
  apply Forall_app. split; [assumption|].
  eapply Forall_impl; [|exact IH].
  intros e. apply loop_event_incl. intros x Hx. now right.
Qed.

(** [Worker.run] once the destination directory is in place: either the
    empty-folder report, or the loop followed by the completion report
    (or by the report of an error that escaped the loop). *)
Lemma run_prepared self w w1 t1 :
  ensure_output_dir self (output_path_of self) w = (inr tt, w1, t1) ->
  run self w =
  let files := enumerated self w1 in
  let total := Z.of_nat (List.length files) in
  if total =? 0 then
    (inr tt, w1,
     (t1 ++ [Log "No images found in the source folder."; Finished; Finished])%list)
  else
    let '(r, w2, t2) :=
      for_enumerate (iteration self (output_path_of self) total) 0 files w1 in
    (inr tt, w2,
     (t1 ++ t2 ++
      [Log match r with
           | inr _ => "Conversion completed."
           | inl e => "Critical error: " ++ str e
           end; Finished])%list).
Proof.
  intros He. unfold run, try_finally, try_except, run_body.
  fold (output_path_of self). unfold bind at 1. rewrite He.
  unfold bind at 1. rewrite image_files_eq. cbn [app].
  destruct (Z.of_nat (List.length (enumerated self w1)) =? 0).
  - unfold bind, emit. cbn. now rewrite <- !app_assoc.
  - unfold bind at 1.
    destruct (for_enumerate _ 0 (enumerated self w1) w1) as [[[e|[]] w2] t2];
      unfold emit; cbn; now rewrite <- !app_assoc.
Qed.

(** [Worker.run] when creating the destination directory raised. *)
Lemma run_unprepared self w e w1 t1 :
  ensure_output_dir self (output_path_of self) w = (inl e, w1, t1) ->
  run self w =
  (inr tt, w1, (t1 ++ [Log ("Critical error: " ++ str e); Finished])%list).
Proof.
  intros He. unfold run, try_finally, try_except, run_body.
  fold (output_path_of self). unfold bind at 1. rewrite He.
  unfold emit. cbn. now rewrite <- !app_assoc.
Qed.


Lemma run_events self w :
  exists w1 rest,
    events (run self) w =
      (events (ensure_output_dir self (output_path_of self)) w ++ rest)%list /\
    Forall (run_event (enumerated self w1)) rest.
Proof.
  unfold events at 1 2.
  destruct (ensure_output_dir self (output_path_of self) w)
    as [[[e|[]] w1] t1] eqn:He.
  - rewrite (run_unprepared _ _ _ _ _ He). cbn [snd].
    exists w1. eexists. split; [reflexivity|]. repeat constructor.
  - rewrite (run_prepared _ _ _ _ He). cbn [snd]. cbv zeta.
    exists w1.
    destruct (Z.of_nat (List.length (enumerated self w1)) =? 0).
    + eexists. split; [reflexivity|]. repeat constructor.
    + pose proof (loop_events self (output_path_of self)
                    (Z.of_nat (List.length (enumerated self w1)))
                    (enumerated self w1) 0 w1) as Hl.
      unfold events in Hl.
      destruct (for_enumerate _ 0 (enumerated self w1) w1) as [[r w2] t2].
      cbn [snd] in *. eexists. split; [reflexivity|].
      apply Forall_app. split.
      * eapply Forall_impl; [|exact Hl]. intros e; destruct e; cbn; tauto.
      * repeat constructor.
Qed.

End Run.

Section Enumeration.

Context {P : Platform}.

Hypothesis case_sensitive : glob_case_sensitive = true.

Lemma listing_spec self w pattern tail :
  (forall s, fnmatch true pattern s = true <-> ends_with s tail) ->
  forall f,
    In f (map (fun n => {| parent := input_dir self; name := n |})
              (filter (fnmatch glob_case_sensitive pattern)
                      (iterdir (input_dir self) w))) <->
    parent f = input_dir self /\ In (name f) (iterdir (input_dir self) w) /\
    ends_with (name f) tail.
Proof.
  intros Hpat f. rewrite case_sensitive, in_map_iff. split.
  - intros (n & <- & Hn). apply filter_In in Hn. destruct Hn as [Hin Hm].
    cbn. rewrite <- Hpat. auto.
  - intros (Hp & Hin & He). exists (name f). split.
    + destruct f; cbn in *. now subst.
    + apply filter_In. split; [assumption|]. now apply Hpat.
Qed.

Lemma enumerated_spec self w f :
  In f (enumerated self w) <->
  parent f = input_dir self /\ In (name f) (iterdir (input_dir self) w) /\
  image_name (name f).
Proof.
  unfold enumerated, image_name.
  rewrite !in_app_iff, (listing_spec _ _ _ _ fnmatch_jpg),
    (listing_spec _ _ _ _ fnmatch_jpeg), (listing_spec _ _ _ _ fnmatch_png).
  tauto.
Qed.

Lemma enumerated_order self w :
  exists jpg jpeg png,
    enumerated self w = (jpg ++ jpeg ++ png)%list /\
    Forall (fun f => ends_with (name f) ".jpg") jpg /\
    Forall (fun f => ends_with (name f) ".jpeg") jpeg /\
    Forall (fun f => ends_with (name f) ".png") png.
Proof.
  do 3 eexists. split; [reflexivity|].
  repeat split; apply Forall_forall; intros f Hf.
  - now apply (listing_spec _ _ _ _ fnmatch_jpg) in Hf.
  - now apply (listing_spec _ _ _ _ fnmatch_jpeg) in Hf.
  - now apply (listing_spec _ _ _ _ fnmatch_png) in Hf.
Qed.

(** C10. On a case-sensitive platform the list built on lines 43-45 is the
    directory entries matching [*.jpg], then those matching [*.jpeg], then
    those matching [*.png], each in the order of the directory listing; a
    name matches exactly when it ends in the extension as written, in lower
    case, so that no name such as [PHOTO.JPG] is in the list.  A run that
    reaches the loop processes exactly the files of that list, in that
    order, and a run only ever saves under such a name. *)
Theorem enumeration_is_case_sensitive self w :
  let listing pattern :=
    map (fun n => {| parent := input_dir self; name := n |})
        (filter (fnmatch true pattern) (iterdir (input_dir self) w)) in
  let files := (listing "*.jpg" ++ listing "*.jpeg" ++ listing "*.png")%list in
  image_files self w = (inr files, w, []) /\
  (forall f, In f (listing "*.jpg") <->
             parent f = input_dir self /\
             In (name f) (iterdir (input_dir self) w) /\
             ends_with (name f) ".jpg") /\
  (forall f, In f (listing "*.jpeg") <->
             parent f = input_dir self /\
             In (name f) (iterdir (input_dir self) w) /\
             ends_with (name f) ".jpeg") /\
  (forall f, In f (listing "*.png") <->
             parent f = input_dir self /\
             In (name f) (iterdir (input_dir self) w) /\
             ends_with (name f) ".png") /\
  (forall stem, ~ In (stem ++ ".JPG") (map name files)) /\
  (forall w0 t1,
     ensure_output_dir self (output_path_of self) w0 = (inr tt, w, t1) ->
     0 < Z.of_nat (List.length files) < 2 ^ 63 ->
     exists w2 t,
       visits self (output_path_of self) (Z.of_nat (List.length files)) 0
              files w w2 t /\
       run self w0 =
       (inr tt, w2,
        (t1 ++ t ++ [Log "Conversion completed."; Finished])%list)) /\
  (forall w0 img dest fmt quality optimize,
     In (Save img dest fmt quality optimize) (events (run self) w0) ->
     image_name (name dest) /\
     forall stem, name dest <> stem ++ ".JPG").
Proof.
  intros listing files.
  assert (Hl : forall pattern,
             listing pattern =
             map (fun n => {| parent := input_dir self; name := n |})
                 (filter (fnmatch glob_case_sensitive pattern)
                         (iterdir (input_dir self) w))).
  { intros pattern. unfold listing. now rewrite case_sensitive. }
  assert (Hfiles : enumerated self w = files).
  { unfold enumerated, files. now rewrite <- !Hl. }
  split. { rewrite <- Hfiles. apply image_files_eq. }
  split. { intros f. rewrite Hl. apply (listing_spec _ _ _ _ fnmatch_jpg). }
  split. { intros f. rewrite Hl. apply (listing_spec _ _ _ _ fnmatch_jpeg). }
  split. { intros f. rewrite Hl. apply (listing_spec _ _ _ _ fnmatch_png). }
  split.
  { intros stem Hin. apply in_map_iff in Hin. destruct Hin as (f & E & Hf).
    rewrite <- Hfiles in Hf. apply enumerated_spec in Hf.
    destruct Hf as (_ & _ & Hi). rewrite E in Hi.
    exact (upper_case_not_image_name stem Hi). }
  split.
  { rewrite <- Hfiles. intros w0 t1 He Hlen.
    destruct (loop_visits self (output_path_of self)
                (Z.of_nat (List.length (enumerated self w)))
                (enumerated self w) 0 w) as (w2 & t & Hloop & Hv); try lia.
    exists w2, t. split; [exact Hv|].
    rewrite (run_prepared _ _ _ _ He). cbv zeta.
    destruct (Z.eqb_spec (Z.of_nat (List.length (enumerated self w))) 0);
      [lia|].
    now rewrite Hloop. }
  assert (Hsave : forall w0 img dest fmt quality optimize,
             In (Save img dest fmt quality optimize) (events (run self) w0) ->
             image_name (name dest)).
  { intros w0 img dest fmt q o Hin.
    destruct (run_events self w0) as (w1 & rest & Hev & Hrest).
    rewrite Hev in Hin. apply in_app_or in Hin. destruct Hin as [Hin|Hin].
    - unfold events in Hin. rewrite ensure_output_dir_eq in Hin.
      destruct (_ && _) in Hin; cbn in Hin; [|contradiction].
      destruct Hin as [Hin|[]]. discriminate.
    - rewrite Forall_forall in Hrest. apply Hrest in Hin. cbn in Hin.
      apply in_map_iff in Hin. destruct Hin as (f & <- & Hf).
      now apply enumerated_spec in Hf. }
  intros w0 img dest fmt q o Hin. pose proof (Hsave _ _ _ _ _ _ Hin) as Hi.
  split; [exact Hi|]. intros stem E. rewrite E in Hi.
  exact (upper_case_not_image_name stem Hi).
Qed.

End Enumeration.

Section RunClaims.

Context {P : Platform}.

(** C4. Once the loop is reached, every enumerated file gets its turn: an
    error raised while a file is decoded, resized or encoded is caught and
    logged with the file name and the message, the progress value follows,
    and the loop goes on with the next file; the run then reports
    completion. *)
Theorem file_errors_do_not_stop_run self w w1 t1 :
  ensure_output_dir self (output_path_of self) w = (inr tt, w1, t1) ->
  0 < Z.of_nat (List.length (enumerated self w1)) < 2 ^ 63 ->
  exists w2 t,
    visits self (output_path_of self)
           (Z.of_nat (List.length (enumerated self w1))) 0
           (enumerated self w1) w1 w2 t /\
    run self w =
    (inr tt, w2,
     (t1 ++ t ++ [Log "Conversion completed."; Finished])%list).
Proof.
  intros He Hlen.
  destruct (loop_visits self (output_path_of self)
              (Z.of_nat (List.length (enumerated self w1)))
              (enumerated self w1) 0 w1) as (w2 & t & Hloop & Hv); try lia.
  exists w2, t. split; [exact Hv|].
  rewrite (run_prepared _ _ _ _ He). cbv zeta.
  destruct (Z.eqb_spec (Z.of_nat (List.length (enumerated self w1))) 0); [lia|].
  now rewrite Hloop.
Qed.



End RunClaims.

(** C9. A valid target size and an image with positive sides whose resized
    width is [0]: target 1920, width 1, height 4000.  Pillow rejects that
    size, so the file ends in the error branch of the loop. *)
Theorem zero_side_is_rejected :
  exists target width height,
    1 <= target /\ 0 < width /\ 0 < height /\
    target < Z.max width height /\
    new_size target width height (Z.max width height) = inr (0, target) /\
    forall (P : Platform) (L : Pillow P) self output_path total i p
           img_path w img,
      target_size self = target ->
      Image_open img_path w = inr img ->
      im_size img = (width, height) ->
      percent i total = inr p ->
      exists e,
        process_image self output_path img_path w = (inl e, w, []) /\
        iteration self output_path total i img_path w =
        (inr tt, w,
         [Log ("Error with " ++ name img_path ++ ": " ++ str e); Progress p]).
Proof.
  exists 1920, 1, 4000.
  repeat (split; [try lia; reflexivity|]).
  intros P L self output_path total i p img_path w img Ht Ho Hs Hp.
  assert (Hr : exists e, resized self (im_clear_info img) = inl e).
  { unfold resized. rewrite clear_info_size, Hs, Ht.
    change (Z.max 1 4000 <=? 1920) with false. cbv iota.
    change (new_size 1920 1 4000 (Z.max 1 4000)) with
      (inr (0, 1920) : result (Z * Z)).
    destruct (im_resize (im_clear_info img) (0, 1920) LANCZOS) as [e|img'] eqn:E.
    - now exists e.
    - apply resize_positive in E; [cbn in E; lia|].
      rewrite clear_info_size, Hs. discriminate. }
  destruct Hr as [e Hr]. exists e.
  assert (Hpi : process_image self output_path img_path w = (inl e, w, [])).
  { unfold process_image, bind, read_result, lift. now rewrite Ho, Hr. }
  split; [exact Hpi|].
  exact (iteration_failed _ _ _ _ _ _ _ _ _ _ Hpi Hp).
Qed.

(** X12. The encoder follows [save_path.suffix.lower()].  When a file is
    processed, the image that was opened and then copied or resized is, for
    [.jpg] and [.jpeg], flattened and saved as JPEG at the requested
    quality, and for every other suffix saved as it is, as PNG without a
    quality; both with [optimize=True], under the name of the input, and the
    world after the pass is the one [save] left. *)
Lemma encoder_follows_suffix {P : Platform} self output_path img_path w w' t :
  process_image self output_path img_path w = (inr tt, w', t) ->
  exists img scaled out dest,
    Image_open img_path w = inr img /\
    resized self (im_clear_info img) = inr scaled /\
    save_path_of self output_path img_path = inr dest /\
    name dest = name img_path /\
    t = [Save out dest
           (if str_in (lower (suffix (name img_path))) [".jpg"; ".jpeg"]
            then JPEG else PNG)
           (if str_in (lower (suffix (name img_path))) [".jpg"; ".jpeg"]
            then Some (jpeg_quality self) else None)
           true;
         Log ("Processed: " ++ name img_path)] /\
    im_save out dest
      (if str_in (lower (suffix (name img_path))) [".jpg"; ".jpeg"]
       then JPEG else PNG)
      (if str_in (lower (suffix (name img_path))) [".jpg"; ".jpeg"]
       then Some (jpeg_quality self) else None)
      true w = (inr tt, w') /\
    if str_in (lower (suffix (name img_path))) [".jpg"; ".jpeg"]
    then flatten (im_clear_info scaled) w = (inr out, w, [])
    else out = im_clear_info scaled.
Proof.
  intros Hrun.
  destruct (process_image_ok _ _ _ _ _ _ Hrun)
    as (img & scaled & dest & t0 & Ho & Hr & Hd & He & ->).
  destruct (encode_ok _ _ _ _ _ _ He) as (out & fmt & q & -> & Hs & Hfmt).
  pose proof (save_path_name _ _ _ _ Hd) as Hn. rewrite Hn in Hfmt.
  exists img, scaled, out, dest.
  split; [exact Ho|]. split; [exact Hr|]. split; [exact Hd|].
  split; [exact Hn|].
  destruct (str_in _ _).
  - destruct Hfmt as (-> & -> & Hf). repeat split; assumption.
  - destruct Hfmt as (-> & -> & ->). repeat split; assumption.
Qed.

(** Lines 80-86: an [RGBA] or [P] image is pasted onto a new white [RGB]
    image of the same size, [RGBA] through its alpha band; any other image
    is encoded as it is. *)
Lemma flatten_white_background {P : Platform} new_img w out w' t :
  flatten new_img w = (inr out, w', t) ->
  if str_in (im_mode new_img) ["RGBA"; "P"] then
    exists background,
      Image_new "RGB" (im_size new_img) (255, 255, 255) = inr background /\
      if String.eqb (im_mode new_img) "RGBA" then
        exists mask, im_last_band new_img = inr mask /\
                     im_paste background new_img (Some mask) = inr out
      else im_paste background new_img None = inr out
  else out = new_img.
Proof.
  unfold flatten, bind, lift, ret. destruct (str_in _ _).
  - destruct (Image_new _ _ _) as [e|bg]; [discriminate|].
    intros H. exists bg. split; [reflexivity|].
    destruct (String.eqb _ _).
    + destruct (im_last_band _) as [e|mask]; [discriminate|].
      exists mask. split; [reflexivity|].
      destruct (im_paste _ _ _); [discriminate|]. now injection H as ->.
    + destruct (im_paste _ _ _); [discriminate|]. now injection H as ->.
  - now intros [= <-].
Qed.

End WorkerFacts.

(** ** The main window *)
Module MainWindowFacts.

Import PyStr MainWindow Spec.
Local Open Scope string_scope.
Local Open Scope Z_scope.

Section Validation.

Context {P : Platform}.


Lemma bad_source_rejected self w :
  is_empty (strip (input_line self)) || negb (isdir (strip (input_line self)) w)
    = true ->
  start_conversion self w =
  inr (log_append self "Error: Invalid source folder.").
Proof. intros H. unfold start_conversion. now rewrite H. Qed.

Lemma bad_destination_rejected self w :
  is_empty (strip (input_line self)) || negb (isdir (strip (input_line self)) w)
    = false ->
  overwrite_cb self = false ->
  is_empty (strip (output_line self)) ||
    negb (isdir (strip (output_line self)) w) = true ->
  start_conversion self w =
  inr (log_append self "Error: Invalid destination folder.").
Proof. intros H1 H2 H3. unfold start_conversion. now rewrite H1, H2, H3. Qed.

(** X13. When [start_conversion] returns, it has either appended one of the four
    messages and left everything else alone, or created a worker from
    checked values. *)
Lemma start_conversion_outcomes self w self' :
  start_conversion self w = inr self' ->
  (exists line, In line rejections /\ self' = log_append self line) \/
  (exists cfg,
     worker self' = Some cfg /\
     start_btn_enabled self' = false /\ log_text self' = [] /\
     isdir (Worker.input_dir cfg) w = true /\
     (Worker.overwrite cfg = false -> isdir (Worker.output_dir cfg) w = true) /\
     1 <= Worker.target_size cfg /\
     1 <= Worker.jpeg_quality cfg <= 95).
Proof.
  unfold start_conversion, rejections.
  destruct (is_empty (strip (input_line self)) ||
            negb (isdir (strip (input_line self)) w)) eqn:E1.
  { intros [= <-]. left. eexists. split; [|reflexivity]. cbn. auto. }
  destruct (negb (overwrite_cb self) &&
            (is_empty (strip (output_line self)) ||
             negb (isdir (strip (output_line self)) w))) eqn:E2.
  { intros [= <-]. left. eexists. split; [|reflexivity]. cbn. auto. }
  destruct (negb (isdigit (strip (size_line self)))).
  { intros [= <-]. left. eexists. split; [|reflexivity]. cbn. auto. }
  destruct (int_of_str (strip (size_line self))) as [e|n]; [discriminate|].
  destruct (Z.leb_spec n 0).
  { intros [= <-]. left. eexists. split; [|reflexivity]. cbn. auto. }
  destruct (negb (isdigit (strip (quality_line self)))).
  { intros [= <-]. left. eexists. split; [|reflexivity]. cbn. auto 6. }
  destruct (int_of_str (strip (quality_line self))) as [e|q]; [discriminate|].
  destruct (Z.leb_spec 1 q); destruct (Z.leb_spec q 95); cbn [andb negb];
    try (intros [= <-]; left; eexists; split; [|reflexivity]; cbn; auto 6).
  intros [= <-]. right. eexists. split; [reflexivity|]. cbn.
  apply orb_false_iff in E1. destruct E1 as [_ E1].
  apply negb_false_iff in E1.
  repeat split; try assumption; try lia.
  intros Hov. rewrite Hov in E2. cbn in E2.
  apply orb_false_iff in E2. destruct E2 as [_ E2].
  now apply negb_false_iff in E2.
Qed.

End Validation.

End MainWindowFacts.

(** ** Runs on the simulated platform *)
Module Runs.

Import PyNum PyStr Worker MainWindow Spec PyNumFacts PyStrFacts WorkerFacts.
Import Sim.
Local Open Scope string_scope.
Local Open Scope Z_scope.

Lemma sim_clamp_sane z : Sim.sane z = true -> Sim.clamp z = z.
Proof.
  unfold Sim.sane, Sim.clamp. rewrite andb_true_iff, Z.leb_le, Z.ltb_lt. lia.
Qed.

Lemma sim_clamp_range z : 0 <= Sim.clamp z < 2 ^ 31.
Proof. unfold Sim.clamp. lia. Qed.

(** The simulated platform honours the contract of Pillow. *)
#[export] Instance sim_pillow : Pillow Sim.platform.
Proof.
  constructor; cbn.
  - intros img. split; apply sim_clamp_range.
  - reflexivity.
  - reflexivity.
  - now intros img img' [= <-].
  - intros img size r img'. unfold Sim.resize.
    destruct (_ && _) eqn:E0.
    { intros [= <-]. apply andb_true_iff in E0. destruct E0 as [E1 E2].
      apply Z.eqb_eq in E1, E2. destruct size; cbn in *. congruence. }
    destruct (_ || _); [discriminate|].
    destruct (Sim.sane (fst size) && Sim.sane (snd size)) eqn:E; [|discriminate].
    intros [= <-]. cbn. apply andb_true_iff in E. destruct E as [E1 E2].
    rewrite (sim_clamp_sane _ E1), (sim_clamp_sane _ E2). now destruct size.
  - intros img size r img'. unfold Sim.resize.
    destruct (_ && _) eqn:E0.
    { intros _ Hne. exfalso. apply Hne.
      apply andb_true_iff in E0. destruct E0 as [E1 E2].
      apply Z.eqb_eq in E1, E2. destruct size; cbn in *. congruence. }
    destruct (_ || _) eqn:E; [discriminate|].
    apply orb_false_iff in E. destruct E as [E1 E2].
    apply Z.ltb_ge in E1, E2. intros _ _. lia.
  - intros mode size color img. unfold Sim.new.
    destruct (Sim.sane (fst size) && Sim.sane (snd size)) eqn:E; [|discriminate].
    intros [= <-]. cbn. apply andb_true_iff in E. destruct E as [E1 E2].
    rewrite (sim_clamp_sane _ E1), (sim_clamp_sane _ E2). now destruct size.
  - now intros bg img mask bg' [= <-].
Defined.



Lemma small_image_keeps_size_witness :
  let w := Sim.folder "in" [("b.png", Sim.rgb 100 50)] in
  let r := process_image (P := Sim.platform) (demo true 1920) None
             (at_in "b.png") w in
  exists new_img out dest fmt quality,
    im_copy (im_clear_info {| Sim.px_size := (100, 50); Sim.px_mode := "RGB" |})
      = inr new_img /\
    (out = im_clear_info new_img \/
     flatten (im_clear_info new_img) w = (inr out, w, [])) /\
    snd r = [Save out dest fmt quality true; Log "Processed: b.png"] /\
    im_size out = (100, 50).
Proof.
  intros w r.
  apply (small_image_keeps_size (P := Sim.platform) (L := sim_pillow)
           (demo true 1920) None (at_in "b.png") w (snd (fst r)) (snd r)
           {| Sim.px_size := (100, 50); Sim.px_mode := "RGB" |}).
  - reflexivity.
  - cbn. lia.
  - reflexivity.
Defined.

Lemma large_image_scaled_witness :
  let w := Sim.folder "in" [("a.jpg", Sim.rgb 4000 3000)] in
  let r := process_image (P := Sim.platform) (demo true 1920) None
             (at_in "a.jpg") w in
  exists out dest fmt quality nw nh,
    snd r = [Save out dest fmt quality true; Log "Processed: a.jpg"] /\
    im_size out = (nw, nh) /\
    new_size 1920 4000 3000 4000 = inr (nw, nh) /\
    1920 - 1 <= Z.max nw nh <= 1920 /\
    Z.abs (nw - 4000 * 1920 / 4000) <= 1 /\
    Z.abs (nh - 3000 * 1920 / 4000) <= 1.
Proof.
  intros w r.
  apply (large_image_scaled (P := Sim.platform) (L := sim_pillow)
           (demo true 1920) None (at_in "a.jpg") w (snd (fst r)) (snd r)
           {| Sim.px_size := (4000, 3000); Sim.px_mode := "RGB" |}).
  - cbn. lia.
  - reflexivity.
  - cbn. lia.
  - reflexivity.
Defined.


Lemma file_errors_do_not_stop_run_witness :
  let self := demo false 1920 in
  let prepared :=
    ensure_output_dir (P := Sim.platform) self (output_path_of self)
      mixed_folder in
  let w1 := snd (fst prepared) in
  exists w2 t,
    visits self (output_path_of self)
           (Z.of_nat (List.length (enumerated self w1))) 0
           (enumerated self w1) w1 w2 t /\
    run self mixed_folder =
    (inr tt, w2,
     (snd prepared ++ t ++ [Log "Conversion completed."; Finished])%list).
Proof.
  intros self prepared w1.
  apply (file_errors_do_not_stop_run (P := Sim.platform) self mixed_folder
           w1 (snd prepared)).
  - reflexivity.
  - cbn. lia.
Defined.



Lemma enumeration_is_case_sensitive_witness :
  let self := demo false 1920 in
  let w0 := mixed_folder in
  let prepared :=
    ensure_output_dir (P := Sim.platform) self (output_path_of self) w0 in
  let w := snd (fst prepared) in
  let files := [at_in "a.jpg"; at_in "bad.jpeg"; at_in "b.png"] in
  image_files self w = (inr files, w, []) /\
  (exists w2 t,
     visits self (output_path_of self) 3 0 files w w2 t /\
     run self w0 =
     (inr tt, w2,
      (snd prepared ++ t ++ [Log "Conversion completed."; Finished])%list)) /\
  (forall img dest fmt quality optimize,
     In (Save img dest fmt quality optimize) (events (run self) w0) ->
     name dest <> "PHOTO" ++ ".JPG").
Proof.
  intros self w0 prepared w files.
  destruct (enumeration_is_case_sensitive (P := Sim.platform) eq_refl self w)
    as (Hfiles & _ & _ & _ & _ & Hrun & Hsave).
  split; [exact Hfiles|]. split.
  - apply (Hrun w0 (snd prepared)); [reflexivity|cbn; lia].
  - intros img dest fmt quality optimize Hin.
    exact (proj2 (Hsave w0 img dest fmt quality optimize Hin) "PHOTO").
Defined.

(** C3 fails on a file named [.jpg]: the pattern [*.jpg] enumerates it,
    [pathlib] gives it no suffix, and it is written with the PNG encoder
    and no quality. *)
Theorem dot_jpg_is_saved_as_png :
  fnmatch true "*.jpg" ".jpg" = true /\
  suffix ".jpg" = EmptyString /\
  events (run (P := Sim.platform) (demo true 1920))
         (Sim.folder "in" [(".jpg", Sim.rgb 5 5)]) =
  [@Save Sim.platform {| Sim.px_size := (5, 5); Sim.px_mode := "RGB" |}
         (at_in ".jpg")
        PNG None true;
   Log "Processed: .jpg"; Progress 100; Log "Conversion completed.";
   Finished].
Proof. repeat split. Qed.

(** C6 fails after the 29th of 100 files: [29 / 100 * 100] is
    [28.999999999999996] in binary64 and [int] truncates it to 28. *)
Theorem progress_after_29_of_100 :
  percent 28 100 = inr 28 /\
  (28 + 1) * 100 / 100 = 29 /\
  nth 28 (progress_values
            (events (run (P := Sim.platform) (demo true 1920))
                    (Sim.folder "in" (Sim.batch 100)))) 0 = 28.
Proof. repeat split; vm_compute; reflexivity. Qed.

(** C8 fails on the size text [U+00B2] (superscript two): [isdigit] accepts
    it, so the size check goes on to [int], which raises [ValueError]; the
    slot is left by the exception and no line is logged. *)
Theorem superscript_size_escapes_validation :
  let form :=
    {| input_line := "in"; output_line := EmptyString;
       size_line := chr 178; quality_line := "80";
       overwrite_cb := true; start_btn_enabled := true;
       progress_bar := 0; log_text := []; worker := None |} in
  isdigit (strip (size_line form)) = true /\
  start_conversion (P := Sim.platform) form (Sim.folder "in" []) =
  inl (PyExc "ValueError"
             ("invalid literal for int() with base 10: '" ++ chr 178 ++ "'")).
Proof. split; reflexivity. Qed.

(** The longest side can come out one pixel short of the target:
    [2148 * (1920 / 2148)] is [1919.9999999999998] in binary64. *)
Example longest_side_one_short :
  new_size 1920 2148 1000 2148 = inr (1919, 893).
Proof. vm_compute. reflexivity. Qed.

(** On these inputs the model computes what the floating-point unit
    computes. *)
Example agrees_with_hardware :
  int_truediv 29 100 =
    inr (Prim2SF (PrimFloat.div (PrimFloat.of_uint63 29) (PrimFloat.of_uint63 100)))
  /\ (let? q := int_truediv 29 100 in float_mul_int q 100) =
    inr (Prim2SF (PrimFloat.mul
                    (PrimFloat.div (PrimFloat.of_uint63 29)
                                   (PrimFloat.of_uint63 100))
                    (PrimFloat.of_uint63 100)))
  /\ (let? q := int_truediv 1920 2148 in int_mul_float 2148 q) =
    inr (Prim2SF (PrimFloat.mul
                    (PrimFloat.of_uint63 2148)
                    (PrimFloat.div (PrimFloat.of_uint63 1920)
                                   (PrimFloat.of_uint63 2148)))).
Proof. repeat split; vm_compute; reflexivity. Qed.

(** The last progress value of a run is 100. *)
Example last_progress_is_100 :
  percent 99 100 = inr 100 /\ percent 0 1 = inr 100 /\ percent 6 7 = inr 100.
Proof. repeat split; vm_compute; reflexivity. Qed.

End Runs.

(** ** The size and progress computations, sharply *)
Module ScalingFacts.

Import PyNum PyStr Worker MainWindow Location Spec Slots Terms.
Import PyNumFacts PyStrFacts WorkerFacts MainWindowFacts.
Local Open Scope string_scope.
Local Open Scope Z_scope.

(** The arithmetic behind [scale_exact]: when [w * t] is small against
    [2^52], the two rounding errors together stay below one unit of
    [1 / m], so the integer part is the exact one or, on a whole quotient,
    one less. *)
Lemma scale_arith_sharp m N J K mp w A mr t E :
  0 < m -> 0 < J -> 0 < K -> 0 < A -> 0 < E -> 0 <= w -> 0 <= t -> 0 <= N ->
  2 ^ 52 <= mr -> 2 ^ 52 <= mp ->
  N * J <= mp < (N + 1) * J ->
  2 * (w * A * mr) - K <= 2 * (mp * K) <= 2 * (w * A * mr) + K ->
  2 * (t * E) - m <= 2 * (mr * m) <= 2 * (t * E) + m ->
  A * E = J * K ->
  m * N < w * t + m ->
  2 * (w * t) + 1 < 2 ^ 53 -> w * t + 2 * m <= 2 ^ 52 ->
  m * N <= w * t <= m * (N + 1).
Proof.
  intros Hm HJ HK HA HE Hw Ht HN Bmr Bmp BN Hperr Herr EJK Hcoarse Hsmall1 Hsmall2.
  assert (HJK : 0 < J * K) by (apply Z.mul_pos_pos; assumption).
  assert (HwA : 0 <= w * A) by (apply Z.mul_nonneg_nonneg; lia).
  (* [m * w < E] *)
  assert (HmwE : m * w < E).
  { destruct (Z_lt_le_dec (m * w) E) as [|L]; [assumption|exfalso].
    assert (T1 : 2 * t * E <= 2 * t * (m * w))
      by (apply Z.mul_le_mono_nonneg_l; lia).
    assert (T2 : 2 ^ 52 * m <= mr * m)
      by (apply Z.mul_le_mono_nonneg_r; lia).
    assert (T3 : m * (2 * (w * t) + 1) < m * 2 ^ 53)
      by (apply Z.mul_lt_mono_pos_l; assumption).
    change (2 ^ 53) with (2 * 2 ^ 52) in T3.
    clear - T1 T2 T3 Herr. lia. }
  (* [m < J] *)
  assert (HmJ : m < J).
  { apply (Z.mul_lt_mono_pos_r (N + 1)); [lia|].
    clear - BN Bmp Hcoarse Hsmall2. lia. }
  assert (S1 : m * (N * J) * K <= m * mp * K)
    by (apply Z.mul_le_mono_nonneg_r; [lia|apply Z.mul_le_mono_nonneg_l; lia]).
  assert (S2 : m * (mp + 1) * K <= m * ((N + 1) * J) * K)
    by (apply Z.mul_le_mono_nonneg_r; [lia|apply Z.mul_le_mono_nonneg_l; lia]).
  assert (S3 : m * (2 * (mp * K)) <= m * (2 * (w * A * mr) + K))
    by (apply Z.mul_le_mono_nonneg_l; lia).
  assert (S4 : m * (2 * (w * A * mr) - K) <= m * (2 * (mp * K)))
    by (apply Z.mul_le_mono_nonneg_l; lia).
  assert (S5 : w * A * (2 * (mr * m)) <= w * A * (2 * (t * E) + m))
    by (apply Z.mul_le_mono_nonneg_l; lia).
  assert (S6 : w * A * (2 * (t * E) - m) <= w * A * (2 * (mr * m)))
    by (apply Z.mul_le_mono_nonneg_l; lia).
  assert (S7 : m * w * A < J * K).
  { rewrite <- EJK, (Z.mul_comm A E). apply Z.mul_lt_mono_pos_r; assumption. }
  assert (S8 : m * K < J * K) by (apply Z.mul_lt_mono_pos_r; assumption).
  assert (E9 : w * A * (2 * (t * E)) = 2 * (w * t) * (J * K))
    by (rewrite <- EJK; ring).
  assert (P10 : 0 < m * K) by (apply Z.mul_pos_pos; assumption).
  split.
  - assert (G : m * N < w * t + 1); [|lia].
    apply Z.mul_lt_mono_pos_r with (p := 2 * (J * K)); [lia|].
    clear - S1 S3 S5 S7 S8 E9. lia.
  - assert (G : w * t < m * (N + 1) + 1); [|lia].
    apply Z.mul_lt_mono_pos_r with (p := 2 * (J * K)); [lia|].
    clear - S2 S4 S6 S7 S8 E9 HJK P10. lia.
Qed.

(** [int(w * (t / m))] when [w * t] is below [2^51]: the result is the
    integer part of [w * t / m], or one less when [m] divides [w * t]. *)
Lemma scale_exact w t m :
  0 <= w -> 1 <= t <= m -> m < 2 ^ 50 -> w * t < 2 ^ 51 ->
  exists r p N,
    int_truediv t m = inr r /\ int_mul_float w r = inr p /\
    int_of_float p = inr N /\
    0 <= N /\ m * N <= w * t <= m * (N + 1).
Proof.
  intros Hw Ht Hm Hwt.
  assert (Hw51 : w < 2 ^ 51).
  { apply Z.le_lt_trans with (w * t); [|assumption].
    rewrite <- (Z.mul_1_r w) at 1. apply Z.mul_le_mono_nonneg_l; lia. }
  assert (Hm1000 : m < 2 ^ 1000)
    by (apply Z.lt_trans with (2 ^ 50); [assumption|reflexivity]).
  destruct (int_truediv_round t m Ht Hm1000)
    as (mr & er & Hr & Her & Bmr & HmrE & Herr).
  clear Hm1000.
  exists (S754_finite false mr (- er)).
  destruct (Z.eq_dec w 0) as [->|Hw0].
  { exists (S754_zero false), 0.
    repeat split; try assumption; try reflexivity; lia. }
  destruct (float_of_int_exact w) as (mw & ew & Hfw & Hew & Bmw & Emw).
  { change (2 ^ 53) with (4 * 2 ^ 51). lia. }
  destruct (float_mul_round false mw (- ew) false mr (- er) Bmw Bmr ltac:(lia))
    as (mp & k & Hp & Hk & Bmp & Hperr).
  cbn [xorb] in Hp. rewrite Emw in Hperr.
  set (A := 2 ^ ew) in *. set (E := 2 ^ er) in *. set (K := 2 ^ k) in *.
  assert (HA : 0 < A) by (apply Z.pow_pos_nonneg; lia).
  assert (HE : 0 < E) by (apply Z.pow_pos_nonneg; lia).
  assert (HK : 0 < K) by (apply Z.pow_pos_nonneg; lia).
  assert (HwE : w < E).
  { apply Z.lt_le_trans with (2 ^ 51); [lia|].
    apply Z.le_trans with (2 ^ 52); [discriminate|lia]. }
  assert (Hj : 0 < ew + er - k).
  { destruct (Z_lt_le_dec 0 (ew + er - k)) as [|L]; [assumption|exfalso].
    assert (EK : K = A * E * 2 ^ (k - ew - er)).
    { unfold K, A, E. rewrite <- !Z.pow_add_r by lia. f_equal. lia. }
    assert (0 < 2 ^ (k - ew - er)) by (apply Z.pow_pos_nonneg; lia).
    assert (A * E <= K).
    { rewrite EK. rewrite <- (Z.mul_1_r (A * E)) at 1.
      apply Z.mul_le_mono_nonneg_l; [apply Z.mul_nonneg_nonneg|]; lia. }
    apply (product_needs_negative_exponent w A E K (Z.pos mr) (Z.pos mp));
      try assumption; lia. }
  set (j := ew + er - k) in *.
  destruct (int_of_float_floor mp j Hj) as (N & HN & BN).
  set (J := 2 ^ j) in *.
  assert (HJ : 0 < J) by (apply Z.pow_pos_nonneg; lia).
  assert (EJK : A * E = J * K).
  { unfold A, E, J, K. rewrite <- !Z.pow_add_r by lia. f_equal. unfold j. lia. }
  exists (S754_finite false mp (- j)), N.
  split; [exact Hr|]. split.
  { unfold int_mul_float. rewrite Hfw, Hp. do 2 f_equal. unfold j. lia. }
  split; [exact HN|].
  assert (HN0 : 0 <= N).
  { destruct (Z_le_gt_dec 0 N) as [|G]; [assumption|exfalso].
    assert ((N + 1) * J <= 0) by (apply Z.mul_nonpos_nonneg; lia). lia. }
  split; [exact HN0|].
  destruct (scale_arith m N J K (Z.pos mp) w A (Z.pos mr) t E)
    as [Hcoarse _]; try assumption; try lia.
  apply (scale_arith_sharp m N J K (Z.pos mp) w A (Z.pos mr) t E);
    try assumption; try lia.
Qed.

(** From [m * n <= x <= m * (n + 1)] to the integer quotient. *)
Lemma floor_or_one_less m x n :
  0 < m -> m * n <= x <= m * (n + 1) ->
  n = x / m \/ (x mod m = 0 /\ n = x / m - 1).
Proof.
  intros Hm [H1 H2].
  pose proof (Z.div_mod x m ltac:(lia)) as Hdm.
  pose proof (Z.mod_pos_bound x m Hm) as Hmod.
  assert (L : n <= x / m) by (apply Z.div_le_lower_bound; lia).
  assert (U : x / m <= n + 1) by (apply Z.div_le_upper_bound; lia).
  destruct (Z.eq_dec n (x / m)) as [|Hne]; [now left|right].
  assert (E : x / m = n + 1) by lia.
  rewrite E in Hdm. split; lia.
Qed.

(** X1. Lines 66-67 on an image that exceeds the target, when
    [longest * target < 2^51]: each new side is the integer part of
    [side * target / longest], except that it may be one less when that
    quotient is a whole number. *)
Theorem new_size_exact t w h m :
  1 <= t < m -> m < 2 ^ 31 -> 0 <= w <= m -> 0 <= h <= m ->
  m * t < 2 ^ 51 ->
  exists nw nh,
    new_size t w h m = inr (nw, nh) /\
    (nw = w * t / m \/ ((w * t) mod m = 0 /\ nw = w * t / m - 1)) /\
    (nh = h * t / m \/ ((h * t) mod m = 0 /\ nh = h * t / m - 1)).
Proof.
  intros Ht Hm Hw Hh Hmt.
  assert (B50 : 2 ^ 31 < 2 ^ 50) by reflexivity.
  assert (Hwt : w * t <= m * t) by (apply Z.mul_le_mono_nonneg_r; lia).
  assert (Hht : h * t <= m * t) by (apply Z.mul_le_mono_nonneg_r; lia).
  destruct (scale_exact w t m) as (r & pw & nw & Hr & Hpw & Hnw & _ & Bw);
    try lia.
  destruct (scale_exact h t m) as (r' & ph & nh & Hr' & Hph & Hnh & _ & Bh);
    try lia.
  assert (r' = r) by congruence. subst r'.
  exists nw, nh. unfold new_size. rewrite Hr, Hpw, Hnw, Hph, Hnh.
  split; [reflexivity|]. split; apply floor_or_one_less; lia.
Qed.

Lemma new_size_exact_witness :
  exists nw nh,
    new_size 1920 4000 3000 4000 = inr (nw, nh) /\
    (nw = 4000 * 1920 / 4000 \/
     ((4000 * 1920) mod 4000 = 0 /\ nw = 4000 * 1920 / 4000 - 1)) /\
    (nh = 3000 * 1920 / 4000 \/
     ((3000 * 1920) mod 4000 = 0 /\ nh = 3000 * 1920 / 4000 - 1)).
Proof.
  apply (new_size_exact 1920 4000 3000 4000); try lia; reflexivity.
Defined.

(** Line 98 through [int(100 * q)]: the product commutes. *)
Lemma percent_of_scale i total r f p :
  int_truediv (i + 1) total = inr r -> int_mul_float 100 r = inr f ->
  int_of_float f = inr p -> percent i total = inr p.
Proof.
  intros Hr Hf Hp. unfold percent. rewrite Hr.
  unfold float_mul_int. unfold int_mul_float in Hf.
  destruct (float_of_int 100) as [e|c]; [discriminate|].
  rewrite float_mul_comm. injection Hf as ->. exact Hp.
Qed.

(** Line 98 for fewer than [2^44] files, against the exact percentage. *)
Lemma percent_bounds i total :
  0 <= i < total -> total < 2 ^ 44 ->
  exists p,
    percent i total = inr p /\ 0 <= p /\
    total * p <= 100 * (i + 1) <= total * (p + 1).
Proof.
  intros Hi Ht.
  assert (B50 : 2 ^ 44 < 2 ^ 50) by reflexivity.
  assert (B51 : 100 * 2 ^ 44 < 2 ^ 51) by reflexivity.
  destruct (scale_exact 100 (i + 1) total) as (r & f & p & Hr & Hf & Hp & Hp0 & Bp);
    try lia.
  exists p. split; [exact (percent_of_scale _ _ _ _ _ Hr Hf Hp)|].
  split; [exact Hp0|exact Bp].
Qed.

Lemma percent_range i total p :
  0 <= i < total -> total < 2 ^ 44 -> percent i total = inr p ->
  0 <= p <= 100.
Proof.
  intros Hi Ht Hp.
  destruct (percent_bounds i total Hi Ht) as (p' & Hp' & Hp0 & Bp).
  assert (p' = p) by congruence. subst p'.
  split; [exact Hp0|].
  assert (total * p <= total * 100) by lia.
  apply Z.mul_le_mono_pos_l with (p := total); lia.
Qed.

(** X3. Line 98 for fewer than [2^44] files: the value never raises, lies
    between 0 and 100, and is the integer part of the exact percentage
    [100 * (i + 1) / total], or one less when that percentage is a whole
    number; it is never ahead of the work done. *)
Theorem percent_exact i total :
  0 <= i < total -> total < 2 ^ 44 ->
  exists p,
    percent i total = inr p /\ 0 <= p <= 100 /\
    (p = 100 * (i + 1) / total \/
     ((100 * (i + 1)) mod total = 0 /\ p = 100 * (i + 1) / total - 1)).
Proof.
  intros Hi Ht.
  destruct (percent_bounds i total Hi Ht) as (p & Hp & Hp0 & Bp).
  exists p. split; [exact Hp|].
  split; [exact (percent_range i total p Hi Ht Hp)|].
  apply floor_or_one_less; lia.
Qed.

Lemma percent_exact_witness :
  exists p,
    percent 28 100 = inr p /\ 0 <= p <= 100 /\
    (p = 100 * (28 + 1) / 100 \/
     ((100 * (28 + 1)) mod 100 = 0 /\ p = 100 * (28 + 1) / 100 - 1)).
Proof. apply (percent_exact 28 100); [lia|reflexivity]. Defined.

(** The progress value of a later file is never below that of an earlier
    one. *)
Lemma percent_monotone i j total p q :
  0 <= i <= j -> j < total -> total < 2 ^ 44 ->
  percent i total = inr p -> percent j total = inr q -> p <= q.
Proof.
  intros Hij Hj Ht Hp Hq.
  destruct (Z.eq_dec i j) as [->|Hne].
  { assert (E : inr p = inr q :> result Z) by congruence.
    injection E as ->. lia. }
  assert (B50 : 2 ^ 44 < 2 ^ 50) by reflexivity.
  assert (B51 : 100 * 2 ^ 44 < 2 ^ 51) by reflexivity.
  destruct (scale_exact 100 (i + 1) total) as (r & f & p' & Hr & Hf & Hp' & _ & Bp);
    try lia.
  destruct (scale_exact 100 (j + 1) total) as (r2 & f2 & q' & Hr2 & Hf2 & Hq' & _ & Bq);
    try lia.
  assert (p' = p)
    by (pose proof (percent_of_scale _ _ _ _ _ Hr Hf Hp'); congruence).
  assert (q' = q)
    by (pose proof (percent_of_scale _ _ _ _ _ Hr2 Hf2 Hq'); congruence).
  subst p' q'.
  assert (total * p < total * (q + 1)) by lia.
  assert (p < q + 1) by (apply Z.mul_lt_mono_pos_l with (p := total); lia).
  lia.
Qed.

(** [a / a] is exactly [1.0], and [int(1.0 * 100)] is 100. *)
Lemma percent_full total :
  1 <= total -> total < 2 ^ 1000 -> percent (total - 1) total = inr 100.
Proof.
  intros H1 H2. unfold percent. replace (total - 1 + 1) with total by lia.
  destruct (int_truediv_round total total ltac:(lia) H2)
    as (mr & er & Hr & Her & Bmr & HmrE & Herr).
  clear H2.
  assert (E : Z.pos mr = 2 ^ er).
  { assert (T : total * (2 * 2 ^ er) <= total * (2 * Z.pos mr + 1)) by lia.
    apply Z.mul_le_mono_pos_l in T; lia. }
  assert (er = 52).
  { rewrite E in Bmr. destruct Bmr as [B1 B2].
    apply Z.pow_le_mono_r_iff in B1; try lia.
    apply Z.pow_lt_mono_r_iff in B2; lia. }
  subst er. change (2 ^ 52) with (Z.pos 4503599627370496) in E.
  injection E as ->. rewrite Hr. reflexivity.
Qed.

End ScalingFacts.

(** ** Progress values of a run *)
Module ProgressFacts.

Import PyNum PyStr Worker MainWindow Location Spec Slots Terms.
Import PyNumFacts PyStrFacts WorkerFacts MainWindowFacts.
Import ScalingFacts.
Local Open Scope string_scope.
Local Open Scope Z_scope.

Lemma indices_range n : forall i k, In k (indices i n) -> i <= k < i + Z.of_nat n.
Proof.
  induction n as [|n IH]; intros i k; cbn [indices]; [contradiction|].
  rewrite Nat2Z.inj_succ. intros [<-|Hin]; [lia|].
  apply IH in Hin. lia.
Qed.

Lemma indices_length n : forall i, List.length (indices i n) = n.
Proof. induction n; intros i; cbn; [reflexivity|]. now rewrite IHn. Qed.

Lemma indices_last n : forall i d,
  last (indices i (S n)) d = i + Z.of_nat n.
Proof.
  induction n as [|n IH]; intros i d; [cbn; lia|].
  change (indices i (S (S n))) with (i :: indices (i + 1) (S n)).
  change (last (i :: indices (i + 1) (S n)) d)
    with (last (indices (i + 1) (S n)) d).
  rewrite IH, Nat2Z.inj_succ. lia.
Qed.

Lemma last_map {A B} (f : A -> B) (l : list A) (d : A) :
  last (map f l) (f d) = f (last l d).
Proof.
  induction l as [|a l IH]; [reflexivity|].
  destruct l as [|b l]; [reflexivity|]. exact IH.
Qed.

Lemma last_nonempty {A} (l : list A) (d d' : A) :
  l <> [] -> last l d = last l d'.
Proof.
  induction l as [|a l IH]; [congruence|]. intros _.
  destruct l as [|b l]; [reflexivity|]. apply IH. discriminate.
Qed.

Section Progress.

Context {P : Platform}.

Lemma progress_values_app (a b : list event) :
  progress_values (a ++ b) = (progress_values a ++ progress_values b)%list.
Proof.
  induction a as [|e a IH]; [reflexivity|].
  destruct e; cbn [app progress_values]; rewrite IH; reflexivity.
Qed.

Lemma file_events_no_progress n (t : list event) :
  Forall (file_event n) t -> progress_values t = [].
Proof.
  induction 1 as [|e t He _ IH]; [reflexivity|].
  destruct e; cbn in He; try contradiction; exact IH.
Qed.

Lemma visits_progress self output_path total i files w w2 t :
  visits self output_path total i files w w2 t ->
  map inr (progress_values t) =
  map (fun k => percent k total) (indices i (List.length files)).
Proof.
  induction 1 as [i w|i f fs w w1 w2 t1 p t Hpi Hp _ IH
                 |i f fs w w1 w2 e t1 p t Hpi Hp _ IH].
  - reflexivity.
  - pose proof (process_image_events self output_path f w) as Hev.
    unfold events in Hev. rewrite Hpi in Hev. cbn [snd] in Hev.
    apply Forall_app in Hev. destruct Hev as [Hev _].
    rewrite progress_values_app, (file_events_no_progress _ _ Hev).
    cbn [app progress_values map List.length indices]. now rewrite IH, Hp.
  - pose proof (process_image_events self output_path f w) as Hev.
    unfold events in Hev. rewrite Hpi in Hev. cbn [snd] in Hev.
    rewrite progress_values_app, (file_events_no_progress _ _ Hev).
    cbn [app progress_values map List.length indices]. now rewrite IH, Hp.
Qed.

(** The progress values of a run that reached a non-empty folder: line 98
    at each index in turn. *)
Lemma run_progress self w w1 t1 :
  ensure_output_dir self (output_path_of self) w = (inr tt, w1, t1) ->
  0 < Z.of_nat (List.length (enumerated self w1)) < 2 ^ 63 ->
  map inr (progress_values (events (run self) w)) =
  map (fun k => percent k (Z.of_nat (List.length (enumerated self w1))))
      (indices 0 (List.length (enumerated self w1))).
Proof.
  intros He Hlen.
  destruct (loop_visits self (output_path_of self)
              (Z.of_nat (List.length (enumerated self w1)))
              (enumerated self w1) 0 w1) as (w2 & t & Hloop & Hv); try lia.
  unfold events. rewrite (run_prepared _ _ _ _ He). cbv zeta.
  destruct (Z.eqb_spec (Z.of_nat (List.length (enumerated self w1))) 0); [lia|].
  rewrite Hloop. cbn [snd].
  rewrite !progress_values_app. cbn [progress_values].
  rewrite app_nil_r.
  rewrite ensure_output_dir_eq in He.
  assert (Ht1 : progress_values t1 = []).
  { destruct (_ && _) in He; inversion He; reflexivity. }
  rewrite Ht1. cbn [app]. exact (visits_progress _ _ _ _ _ _ _ _ Hv).
Qed.

(** A run that did not reach the loop sends no progress value. *)
Lemma no_loop_no_progress self w :
  (forall w1 t1,
     ensure_output_dir self (output_path_of self) w = (inr tt, w1, t1) ->
     enumerated self w1 = []) ->
  progress_values (events (run self) w) = [].
Proof.
  intros Hnone. unfold events.
  destruct (ensure_output_dir self (output_path_of self) w)
    as [[[e|[]] w1] t1] eqn:He.
  - rewrite (run_unprepared _ _ _ _ _ He). cbn [snd].
    rewrite progress_values_app. cbn.
    rewrite ensure_output_dir_eq in He.
    destruct (_ && _) in He; inversion He; reflexivity.
  - rewrite (run_prepared _ _ _ _ He), (Hnone _ _ eq_refl). cbn.
    rewrite progress_values_app. cbn.
    rewrite ensure_output_dir_eq in He.
    destruct (_ && _) in He; inversion He; reflexivity.
Qed.

End Progress.

Lemma percent_list_sorted total n : forall i ps,
  0 <= i -> i + Z.of_nat n <= total -> total < 2 ^ 44 ->
  map inr ps = map (fun k => percent k total) (indices i n) ->
  StronglySorted Z.le ps.
Proof.
  induction n as [|n IH]; intros i ps Hi Hn Ht Hmap.
  - destruct ps; [constructor|discriminate].
  - rewrite Nat2Z.inj_succ in Hn.
    destruct ps as [|p ps]; [discriminate|].
    cbn [indices map] in Hmap. injection Hmap as Hp Hrest.
    constructor.
    + apply (IH (i + 1)); try lia. exact Hrest.
    + apply Forall_forall. intros q Hq.
      assert (Hin : In (inr q : result Z) (map inr ps)) by now apply in_map.
      rewrite Hrest in Hin. apply in_map_iff in Hin.
      destruct Hin as (k & Hk & Hkin). apply indices_range in Hkin.
      apply (percent_monotone i k total); try lia; congruence.
Qed.

Section ProgressClaims.

Context {P : Platform}.

(** X4. The progress values a run sends are in non-decreasing order, for
    every state of the world and every outcome of the files, as long as the
    folder holds fewer than [2^44] images. *)
Theorem progress_never_decreases self w :
  Z.of_nat (List.length (enumerated self (prepared_world self w))) < 2 ^ 44 ->
  Sorted Z.le (progress_values (events (run self) w)).
Proof.
  intros Hlen. apply StronglySorted_Sorted.
  unfold prepared_world in Hlen.
  destruct (ensure_output_dir self (output_path_of self) w)
    as [[r w1] t1] eqn:He. cbn [fst snd] in Hlen.
  destruct (Nat.eq_dec (List.length (enumerated self w1)) 0) as [E0|Hne].
  - rewrite no_loop_no_progress; [constructor|].
    intros w1' t1' He'. rewrite He in He'. injection He' as _ <- _.
    now apply length_zero_iff_nil.
  - destruct r as [e|[]].
    + rewrite no_loop_no_progress; [constructor|].
      intros w1' t1' He'. rewrite He in He'. discriminate.
    + assert (B : 2 ^ 44 < 2 ^ 63) by reflexivity.
      apply (percent_list_sorted
               (Z.of_nat (List.length (enumerated self w1)))
               (List.length (enumerated self w1)) 0); try lia.
      apply (run_progress self w w1 t1 He). lia.
Qed.

Lemma run_progress_range self w w1 t1 :
  ensure_output_dir self (output_path_of self) w = (inr tt, w1, t1) ->
  0 < Z.of_nat (List.length (enumerated self w1)) < 2 ^ 44 ->
  Forall (fun p => 0 <= p <= 100) (progress_values (events (run self) w)).
Proof.
  intros He Hlen.
  assert (B : 2 ^ 44 < 2 ^ 63) by reflexivity.
  pose proof (run_progress self w w1 t1 He ltac:(lia)) as Hmap.
  apply Forall_forall. intros p Hp.
  assert (Hin : In (inr p : result Z)
                   (map inr (progress_values (events (run self) w))))
    by now apply in_map.
  rewrite Hmap in Hin. apply in_map_iff in Hin.
  destruct Hin as (k & Hk & Hkin). apply indices_range in Hkin.
  apply (percent_range k (Z.of_nat (List.length (enumerated self w1))));
    [lia|lia|exact Hk].
Qed.

Lemma run_progress_last self w w1 t1 d :
  ensure_output_dir self (output_path_of self) w = (inr tt, w1, t1) ->
  0 < Z.of_nat (List.length (enumerated self w1)) < 2 ^ 44 ->
  progress_values (events (run self) w) <> [] /\
  last (progress_values (events (run self) w)) d = 100.
Proof.
  intros He Hlen.
  assert (B : 2 ^ 44 < 2 ^ 63) by reflexivity.
  assert (B' : 2 ^ 44 < 2 ^ 1000) by reflexivity.
  pose proof (run_progress self w w1 t1 He ltac:(lia)) as Hmap.
  set (ps := progress_values (events (run self) w)) in *.
  set (n := List.length (enumerated self w1)) in *.
  destruct n as [|n'] eqn:En; [cbn in Hlen; lia|].
  assert (Hne : ps <> []) by (destruct ps; discriminate).
  split; [exact Hne|].
  rewrite (last_nonempty ps d 100 Hne).
  pose proof (percent_full (Z.of_nat (S n')) ltac:(lia) ltac:(lia)) as E100.
  pose proof (last_map (@inr exn Z) ps 100) as Hlast.
  rewrite Hmap, <- E100 in Hlast.
  rewrite (last_map (fun k => percent k (Z.of_nat (S n')))) in Hlast.
  rewrite indices_last in Hlast.
  replace (0 + Z.of_nat n') with (Z.of_nat (S n') - 1) in Hlast by lia.
  rewrite E100 in Hlast. now injection Hlast as <-.
Qed.

(** X5. A run over [n] images, [0 < n < 2^44], sends exactly [n] progress
    values, all between 0 and 100, and the last one is 100, whatever
    happened to the individual files. *)
Theorem progress_reaches_100 self w w1 t1 :
  ensure_output_dir self (output_path_of self) w = (inr tt, w1, t1) ->
  0 < Z.of_nat (List.length (enumerated self w1)) < 2 ^ 44 ->
  List.length (progress_values (events (run self) w)) =
    List.length (enumerated self w1) /\
  Forall (fun p => 0 <= p <= 100) (progress_values (events (run self) w)) /\
  last (progress_values (events (run self) w)) 0 = 100.
Proof.
  intros He Hlen.
  assert (B : 2 ^ 44 < 2 ^ 63) by reflexivity.
  pose proof (run_progress self w w1 t1 He ltac:(lia)) as Hmap.
  split.
  { apply (f_equal (@List.length _)) in Hmap.
    now rewrite !length_map, indices_length in Hmap. }
  split; [exact (run_progress_range self w w1 t1 He Hlen)|].
  exact (proj2 (run_progress_last self w w1 t1 0 He Hlen)).
Qed.

End ProgressClaims.

End ProgressFacts.

(** ** One file *)
Module ProcessFacts.

Import PyNum PyStr Worker MainWindow Location Spec Slots Terms.
Import PyNumFacts PyStrFacts WorkerFacts MainWindowFacts.
Import ScalingFacts ProgressFacts.
Local Open Scope string_scope.
Local Open Scope Z_scope.

Section ProcessFacts.

Context {P : Platform}.

(** The size of the image a successful pass hands to the encoder is the
    size of the copied or resized image. *)
Lemma processed_size {L : Pillow P} self output_path img_path w w' t :
  process_image self output_path img_path w = (inr tt, w', t) ->
  exists img new_img out dest fmt quality,
    Image_open img_path w = inr img /\
    resized self (im_clear_info img) = inr new_img /\
    t = [Save out dest fmt quality true;
         Log ("Processed: " ++ name img_path)] /\
    im_size out = im_size new_img.
Proof.
  intros Hrun.
  destruct (process_image_ok _ _ _ _ _ _ Hrun)
    as (img & new_img & dest & t0 & Ho & Hr & Hd & He & ->).
  destruct (encode_ok _ _ _ _ _ _ He) as (out & fmt & q & -> & _ & Hfmt).
  exists img, new_img, out, dest, fmt, q.
  repeat split; try assumption.
  destruct (str_in _ _).
  - destruct Hfmt as (_ & _ & Hf). apply flatten_size in Hf.
    now rewrite Hf, clear_info_size.
  - destruct Hfmt as (_ & _ & ->). now rewrite clear_info_size.
Qed.

(** X2. The tool only ever shrinks: for a positive target size, no side of
    the image handed to the encoder is longer than the same side of the
    input image. *)
Theorem output_never_larger {L : Pillow P} self output_path img_path w w' t img :
  1 <= target_size self ->
  Image_open img_path w = inr img ->
  process_image self output_path img_path w = (inr tt, w', t) ->
  exists out dest fmt quality,
    t = [Save out dest fmt quality true;
         Log ("Processed: " ++ name img_path)] /\
    fst (im_size out) <= fst (im_size img) /\
    snd (im_size out) <= snd (im_size img).
Proof.
  intros Ht Hopen Hrun.
  destruct (processed_size _ _ _ _ _ _ Hrun)
    as (img0 & new_img & out & dest & fmt & q & Ho & Hr & -> & Hsize).
  assert (img0 = img) by congruence. subst img0.
  exists out, dest, fmt, q. split; [reflexivity|]. rewrite Hsize.
  unfold resized in Hr. rewrite clear_info_size in Hr.
  destruct (size_range img) as [Bw Bh].
  destruct (im_size img) as [width height] eqn:Es. cbn [fst snd] in *.
  destruct (Z.leb_spec (Z.max width height) (target_size self)) as [Hle|Hgt].
  - apply copy_size in Hr. rewrite Hr, clear_info_size, Es. cbn. lia.
  - set (m := Z.max width height) in *.
    destruct (new_size_round (target_size self) width height m)
      as (nw & nh & Hns & (Hw0 & Hw1 & _) & (Hh0 & Hh1 & _));
      try (unfold m; lia).
    rewrite Hns in Hr. apply resize_size in Hr. rewrite Hr. cbn [fst snd].
    assert (Tw : width * target_size self <= width * (m - 1))
      by (apply Z.mul_le_mono_nonneg_l; lia).
    assert (Th : height * target_size self <= height * (m - 1))
      by (apply Z.mul_le_mono_nonneg_l; lia).
    split.
    + assert (G : m * nw < m * (width + 1)) by (unfold m in *; lia).
      apply Z.mul_lt_mono_pos_l in G; unfold m in *; lia.
    + assert (G : m * nh < m * (height + 1)) by (unfold m in *; lia).
      apply Z.mul_lt_mono_pos_l in G; unfold m in *; lia.
Qed.

Lemma save_cases img dest fmt quality w :
  match im_save img dest fmt quality true w with
  | (inl e, w') =>
      save img dest fmt quality true w =
      (inl e, w', [Save img dest fmt quality true])
  | (inr _, w') =>
      save img dest fmt quality true w =
      (inr tt, w', [Save img dest fmt quality true])
  end.
Proof.
  unfold save, bind, emit, call.
  destruct (im_save img dest fmt quality true w) as [[e|[]] w2]; reflexivity.
Qed.

Lemma encode_cases self new_img dest w :
  (exists e, encode self new_img dest w = (inl e, w, [])) \/
  (exists out fmt quality,
     quality = match fmt with
               | JPEG => Some (jpeg_quality self)
               | PNG => None
               end /\
     encode self new_img dest w = save out dest fmt quality true w).
Proof.
  unfold encode. destruct (str_in _ _).
  - destruct (flatten new_img w) as [[[e|out] w1] t1] eqn:Ef;
      destruct (flatten_pure _ _ _ _ _ Ef) as [-> ->].
    + left. exists e. unfold bind. now rewrite Ef.
    + right. exists out, JPEG, (Some (jpeg_quality self)).
      split; [reflexivity|]. unfold bind at 1. rewrite Ef.
      now destruct (save out dest JPEG (Some (jpeg_quality self)) true w)
        as [[r w2] t2].
  - right. now exists new_img, PNG, None.
Qed.

(** X9. Processing a file makes at most one [save] call, and that call is
    all it does to the outside: when opening, resizing or flattening fails,
    nothing is saved and the world is as before, so in overwrite mode the
    original is left alone; the success line is logged exactly when [save]
    returned normally. *)
Theorem failed_file_is_not_touched self output_path img_path w :
  (exists e, process_image self output_path img_path w = (inl e, w, [])) \/
  (exists out dest fmt quality,
     save_path_of self output_path img_path = inr dest /\
     match im_save out dest fmt quality true w with
     | (inl e, w') =>
         process_image self output_path img_path w =
         (inl e, w', [Save out dest fmt quality true])
     | (inr _, w') =>
         process_image self output_path img_path w =
         (inr tt, w', [Save out dest fmt quality true;
                       Log ("Processed: " ++ name img_path)])
     end).
Proof.
  unfold process_image.
  destruct (Image_open img_path w) as [e|img] eqn:Eo.
  { left. exists e. unfold bind, read_result. now rewrite Eo. }
  destruct (resized self (im_clear_info img)) as [e|new_img] eqn:Er.
  { left. exists e. unfold bind, read_result, lift. now rewrite Eo, Er. }
  destruct (save_path_of self output_path img_path) as [e|dest] eqn:Ed.
  { left. exists e. unfold bind, read_result, lift. now rewrite Eo, Er. }
  destruct (encode_cases self (im_clear_info new_img) dest w)
    as [[e He]|(out & fmt & q & _ & He)].
  { left. exists e. unfold bind, read_result, lift. now rewrite Eo, Er, He. }
  right. exists out, dest, fmt, q. split; [reflexivity|].
  pose proof (save_cases out dest fmt q w) as Hs.
  destruct (im_save out dest fmt q true w) as [[e|u] w2];
    unfold bind, read_result, lift, emit; rewrite Eo, Er, He, Hs; reflexivity.
Qed.

End ProcessFacts.

End ProcessFacts.

(** ** Whole runs *)
Module RunFacts.

Import PyNum PyStr Worker MainWindow Location Spec Slots Terms.
Import PyNumFacts PyStrFacts WorkerFacts MainWindowFacts.
Import ScalingFacts ProgressFacts ProcessFacts.
Local Open Scope string_scope.
Local Open Scope Z_scope.

Section RunFacts.

Context {P : Platform}.

Lemma ensure_events self w :
  events (ensure_output_dir self (output_path_of self)) w = [] \/
  events (ensure_output_dir self (output_path_of self)) w =
    [MkDir (output_dir self)].
Proof.
  unfold events. rewrite ensure_output_dir_eq.
  destruct (_ && _); cbn; auto.
Qed.

Lemma loop_event_not_finished files (t : list event) :
  Forall (loop_event files) t -> ~ In Finished t.
Proof.
  intros H Hin. rewrite Forall_forall in H. exact (H _ Hin).
Qed.

(** The trace of a run: what came before completion is signalled, and how
    often it is signalled. *)
Lemma run_trace self w :
  exists w' body,
    ~ In Finished body /\
    ((run self w = (inr tt, w', (body ++ [Finished])%list) /\
      (enumerated self (prepared_world self w) <> [] \/
       exists e, fst (fst (ensure_output_dir self (output_path_of self) w))
                 = inl e)) \/
     (run self w = (inr tt, w', (body ++ [Finished; Finished])%list) /\
      enumerated self (prepared_world self w) = [] /\
      exists t1,
        body = (t1 ++ [Log "No images found in the source folder."])%list)).
Proof.
  unfold prepared_world.
  pose proof (ensure_events self w) as Hens. unfold events in Hens.
  destruct (ensure_output_dir self (output_path_of self) w)
    as [[[e|[]] w1] t1] eqn:He; cbn [fst snd] in *.
  - exists w1, (t1 ++ [Log ("Critical error: " ++ str e)])%list. split.
    + intros Hin. apply in_app_or in Hin.
      destruct Hin as [Hin|[Hin|[]]]; [|discriminate].
      destruct Hens as [-> | ->]; cbn in Hin; intuition discriminate.
    + left. split; [|right; now exists e].
      rewrite (run_unprepared _ _ _ _ _ He). now rewrite <- app_assoc.
  - rewrite (run_prepared _ _ _ _ He). cbv zeta.
    destruct (Z.eqb_spec (Z.of_nat (List.length (enumerated self w1))) 0)
      as [E0|Hne].
    + exists w1, (t1 ++ [Log "No images found in the source folder."])%list.
      split.
      * intros Hin. apply in_app_or in Hin.
        destruct Hin as [Hin|[Hin|[]]]; [|discriminate].
        destruct Hens as [-> | ->]; cbn in Hin; intuition discriminate.
      * right. split; [now rewrite <- app_assoc|].
        split; [apply length_zero_iff_nil; lia|now exists t1].
    + pose proof (loop_events self (output_path_of self)
                    (Z.of_nat (List.length (enumerated self w1)))
                    (enumerated self w1) 0 w1) as Hl.
      unfold events in Hl.
      destruct (for_enumerate _ 0 (enumerated self w1) w1) as [[r w2] t2].
      cbn [snd] in Hl.
      exists w2,
        (t1 ++ t2 ++
         [Log match r with
              | inr _ => "Conversion completed."
              | inl e => "Critical error: " ++ str e
              end])%list.
      split.
      * intros Hin. apply in_app_or in Hin. destruct Hin as [Hin|Hin].
        { destruct Hens as [-> | ->]; cbn in Hin; intuition discriminate. }
        apply in_app_or in Hin. destruct Hin as [Hin|[Hin|[]]];
          [|discriminate].
        exact (loop_event_not_finished _ _ Hl Hin).
      * left. split.
        { now rewrite <- !app_assoc. }
        left. intros E. rewrite E in Hne. now apply Hne.
Qed.

(** How often line 50 and the [finally] clause signal completion. *)
Lemma run_trace_repeat self w :
  exists w' body,
    ~ In Finished body /\
    run self w =
    (inr tt, w', (body ++ repeat Finished (completions self w))%list).
Proof.
  destruct (run_trace self w) as (w' & body & Hb & [[Hr Hc]|(Hr & Hc & _)]);
    exists w', body; (split; [exact Hb|]); rewrite Hr; unfold completions;
    fold (prepared_world self w).
  - destruct Hc as [Hc|[e Hc]].
    + destruct (fst (fst (ensure_output_dir self (output_path_of self) w)))
        as [e|[]]; [reflexivity|].
      destruct (enumerated self (prepared_world self w)); [congruence|].
      reflexivity.
    + now rewrite Hc.
  - rewrite Hc.
    destruct (fst (fst (ensure_output_dir self (output_path_of self) w)))
      as [e|[]] eqn:E; [|reflexivity].
    exfalso.
    destruct (ensure_output_dir self (output_path_of self) w)
      as [[r w1] t1] eqn:He. cbn [fst] in E. subst r.
    rewrite (run_unprepared _ _ _ _ _ He) in Hr.
    injection Hr as _ Hr.
    apply (f_equal (@rev event)) in Hr.
    rewrite !rev_app_distr in Hr. cbn in Hr. discriminate.
Qed.

(** X6. A run never raises, whatever the platform does, and completion is
    signalled at the very end of the trace and nowhere else: once, or twice
    in a row when the folder holds no image (line 50, then the [finally]
    clause). *)
Theorem run_always_finishes self w :
  exists w' body,
    ~ In Finished body /\
    run self w =
    (inr tt, w', (body ++ repeat Finished (completions self w))%list) /\
    (1 <= completions self w <= 2)%nat /\
    (completions self w = 2%nat <->
     (exists w1 t1,
        ensure_output_dir self (output_path_of self) w = (inr tt, w1, t1) /\
        enumerated self w1 = [])).
Proof.
  destruct (run_trace_repeat self w) as (w' & body & Hb & Hr).
  exists w', body. split; [exact Hb|]. split; [exact Hr|].
  unfold completions, prepared_world.
  destruct (ensure_output_dir self (output_path_of self) w)
    as [[[e|[]] w1] t1]; cbn [fst snd].
  - split; [lia|]. split; [discriminate|].
    intros (w1' & t1' & [=] & _).
  - destruct (enumerated self w1) eqn:E.
    + split; [lia|]. split; [|reflexivity].
      intros _. exists w1, t1. now split.
    + split; [lia|]. split; [discriminate|].
      intros (w1' & t1' & [= <- _] & E'). congruence.
Qed.

(** X7. When the destination directory is missing and cannot be created,
    the run reports the error of [mkdir] as critical, signals completion,
    and does nothing else: no file is opened or saved. *)
Theorem mkdir_failure_is_critical self w e w1 :
  overwrite self = false ->
  path_exists (output_dir self) w = false ->
  path_mkdir (output_dir self) w = (inl e, w1) ->
  run self w =
  (inr tt, w1,
   [MkDir (output_dir self); Log ("Critical error: " ++ str e); Finished]).
Proof.
  intros Hov Hex Hmk.
  apply (run_unprepared self w e w1 [MkDir (output_dir self)]).
  rewrite ensure_output_dir_eq, Hov, Hex, Hmk. reflexivity.
Qed.

Lemma encode_saves self f new_img dest w :
  dest = destination self f ->
  Forall (save_for self f) (events (encode self new_img dest) w).
Proof.
  intros Hd. unfold events.
  destruct (encode_cases self new_img dest w)
    as [[e ->]|(out & fmt & q & Hq & ->)]; [constructor|].
  pose proof (save_cases out dest fmt q w) as Hs.
  destruct (im_save out dest fmt q true w) as [[e|u] w2]; rewrite Hs; cbn;
    repeat constructor; assumption.
Qed.

Lemma process_image_saves self f w :
  Forall (save_for self f)
         (events (process_image self (output_path_of self) f) w).
Proof.
  unfold events, process_image, bind, read_result, lift, emit.
  destruct (Image_open f w) as [e|img]; [constructor|].
  destruct (resized self (im_clear_info img)) as [e|new_img]; [constructor|].
  destruct (save_path_of self (output_path_of self) f) as [e|dest] eqn:Ed;
    [constructor|].
  assert (Hd : dest = destination self f).
  { unfold save_path_of, output_path_of, destination in *.
    destruct (overwrite self); cbn in Ed; congruence. }
  pose proof (encode_saves self f (im_clear_info new_img) dest w Hd) as H.
  unfold events in H.
  destruct (encode self (im_clear_info new_img) dest w) as [[[e|[]] w1] t1];
    cbn [snd app] in *; [assumption|].
  apply Forall_app. split; [assumption|]. repeat constructor.
Qed.

Lemma iteration_saves self total i f w :
  Forall (save_for self f)
         (events (iteration self (output_path_of self) total i f) w).
Proof.
  unfold events, iteration, bind, try_except, lift, emit.
  pose proof (process_image_saves self f w) as Hpi. unfold events in Hpi.
  destruct (process_image self (output_path_of self) f w) as [[[e|[]] w1] t1];
    cbn [snd] in *; destruct (percent i total) as [e'|p]; cbn [snd app];
    repeat (apply Forall_app; split); try assumption; repeat constructor.
Qed.

Lemma loop_saves self total files : forall i w,
  Forall (fun e => exists f, In f files /\ save_for self f e)
         (events (for_enumerate (iteration self (output_path_of self) total)
                                i files) w).
Proof.
  induction files as [|f fs IH]; intros i w; [constructor|].
  unfold events. cbn [for_enumerate]. unfold bind.
  pose proof (iteration_saves self total i f w) as Hit. unfold events in Hit.
  assert (Hit' : Forall (fun e => exists f0, In f0 (f :: fs) /\ save_for self f0 e)
                   (snd (iteration self (output_path_of self) total i f w))).
  { eapply Forall_impl; [|exact Hit]. intros e He. exists f. split; [now left|exact He]. }
  destruct (iteration self (output_path_of self) total i f w)
    as [[[e|[]] w1] t1]; cbn [snd] in *; [assumption|].
  specialize (IH (i + 1) w1). unfold events in IH.
  destruct (for_enumerate _ (i + 1) fs w1) as [[r w2] t2]. cbn [snd] in *.
  apply Forall_app. split; [assumption|].
  eapply Forall_impl; [|exact IH].
  intros e (f0 & Hin & He). exists f0. split; [now right|exact He].
Qed.

Lemma save_of_run self w img dest fmt quality optimize :
  In (Save img dest fmt quality optimize) (events (run self) w) ->
  exists f,
    In f (enumerated self (prepared_world self w)) /\
    parent f = input_dir self /\
    dest = destination self f /\ name dest = name f /\ optimize = true /\
    quality = match fmt with
              | JPEG => Some (jpeg_quality self)
              | PNG => None
              end.
Proof.
  intros Hin. unfold prepared_world.
  pose proof (ensure_events self w) as Hens. unfold events in Hens, Hin.
  destruct (ensure_output_dir self (output_path_of self) w)
    as [[[e|[]] w1] t1] eqn:He; cbn [fst snd] in *.
  - rewrite (run_unprepared _ _ _ _ _ He) in Hin. cbn [snd] in Hin.
    apply in_app_or in Hin. exfalso.
    destruct Hin as [Hin|Hin]; [|cbn in Hin; intuition discriminate].
    destruct Hens as [E|E]; rewrite E in Hin; cbn in Hin;
      intuition discriminate.
  - rewrite (run_prepared _ _ _ _ He) in Hin. cbv zeta in Hin.
    destruct (Z.of_nat (List.length (enumerated self w1)) =? 0).
    + exfalso. cbn [snd] in Hin. apply in_app_or in Hin.
      destruct Hin as [Hin|Hin]; [|cbn in Hin; intuition discriminate].
      destruct Hens as [E|E]; rewrite E in Hin; cbn in Hin;
        intuition discriminate.
    + pose proof (loop_saves self
                    (Z.of_nat (List.length (enumerated self w1)))
                    (enumerated self w1) 0 w1) as Hl.
      unfold events in Hl.
      destruct (for_enumerate _ 0 (enumerated self w1) w1) as [[r w2] t2].
      cbn [snd] in *. apply in_app_or in Hin. destruct Hin as [Hin|Hin].
      { exfalso. destruct Hens as [E|E]; rewrite E in Hin; cbn in Hin;
          intuition discriminate. }
      apply in_app_or in Hin.
      destruct Hin as [Hin|Hin]; [|exfalso; cbn in Hin; intuition discriminate].
      rewrite Forall_forall in Hl.
      destruct (Hl _ Hin) as (f & Hf & Hd & Ho & Hq).
      exists f. split; [exact Hf|]. split.
      { unfold enumerated in Hf. rewrite !in_app_iff, !in_map_iff in Hf.
        destruct Hf as [(n & <- & _)|[(n & <- & _)|(n & <- & _)]];
          reflexivity. }
      split; [exact Hd|]. split; [|split; assumption].
      rewrite Hd. unfold destination. now destruct (overwrite self).
Qed.

(** X8. Every [save] call of a run is for one of the enumerated files of
    the source folder and keeps its name; it goes to the destination folder,
    or to the source path itself in overwrite mode, with [optimize=True] and,
    for JPEG, the requested quality. *)
Theorem saves_go_to_their_destination self w img dest fmt quality optimize :
  In (Save img dest fmt quality optimize) (events (run self) w) ->
  In (name dest) (iterdir (input_dir self) (prepared_world self w)) /\
  parent dest = (if overwrite self then input_dir self else output_dir self) /\
  optimize = true /\
  quality = match fmt with JPEG => Some (jpeg_quality self) | PNG => None end.
Proof.
  intros Hin.
  destruct (save_of_run self w img dest fmt quality optimize Hin)
    as (f & Hf & Hp & Hd & Hn & Ho & Hq).
  split.
  { rewrite Hn. unfold enumerated in Hf.
    rewrite !in_app_iff, !in_map_iff in Hf.
    destruct Hf as [(n & <- & Hf)|[(n & <- & Hf)|(n & <- & Hf)]];
      apply filter_In in Hf; apply Hf. }
  split; [|split; assumption].
  rewrite Hd. unfold destination. destruct (overwrite self); [exact Hp|].
  reflexivity.
Qed.

(** X10. In overwrite mode the destination folder plays no part: whatever
    the worker was given for it, the run is the same, and every file is
    saved into the source folder, under its own name. *)
Theorem overwrite_ignores_destination self dir w :
  overwrite self = true ->
  run (with_output_dir self dir) w = run self w /\
  (forall img dest fmt quality optimize,
     In (Save img dest fmt quality optimize) (events (run self) w) ->
     In dest (enumerated self w)).
Proof.
  intros Hov. split.
  - unfold run, run_body. cbn [overwrite with_output_dir].
    rewrite Hov. cbn [negb]. reflexivity.
  - intros img dest fmt quality optimize Hin.
    destruct (save_of_run self w img dest fmt quality optimize Hin)
      as (f & Hf & _ & Hd & _).
    assert (Hw : prepared_world self w = w).
    { unfold prepared_world. rewrite ensure_output_dir_eq, Hov. reflexivity. }
    rewrite Hw in Hf. rewrite Hd. unfold destination. now rewrite Hov.
Qed.

End RunFacts.

End RunFacts.

(** ** The enumeration *)
Module ListingFacts.

Import PyNum PyStr Worker MainWindow Location Spec Slots Terms.
Import PyNumFacts PyStrFacts WorkerFacts MainWindowFacts.
Local Open Scope string_scope.
Local Open Scope Z_scope.

Lemma penultimate_append stem a b :
  penultimate (stem ++ String a (String b EmptyString)) = Some a.
Proof.
  induction stem as [|c stem IH]; [reflexivity|].
  cbn [append penultimate]. rewrite IH.
  destruct stem as [|d stem]; [reflexivity|].
  cbn [append]. now destruct stem.
Qed.

Lemma append_assoc' (a b c : string) : (a ++ b) ++ c = a ++ (b ++ c).
Proof. induction a as [|x a IH]; [reflexivity|]. cbn. now rewrite IH. Qed.

Lemma match_literals_tail cs c1 c2 l : forall t,
  match_toks cs (map Lit (l ++ [c1; c2])) t = true ->
  exists stem a b,
    t = stem ++ String a (String b EmptyString) /\ chr_eq cs a c1 = true.
Proof.
  induction l as [|c l IH]; intros t H.
  - cbn in H. destruct t as [|a [|b [|x t]]]; try discriminate.
    + now rewrite andb_false_r in H.
    + exists EmptyString, a, b. split; [reflexivity|].
      now apply andb_true_iff in H.
    + now rewrite !andb_false_r in H.
  - cbn [app map match_toks] in H. destruct t as [|x t]; [discriminate|].
    apply andb_true_iff in H. destruct H as [_ H].
    destruct (IH _ H) as (stem & a & b & -> & Ha).
    now exists (String x stem), a, b.
Qed.

Lemma match_star_tail cs p s :
  match_toks cs (Star :: p) s = true ->
  exists stem t, s = stem ++ t /\ match_toks cs p t = true.
Proof.
  cbn [match_toks]. induction s as [|a s IH]; intros H.
  - rewrite orb_false_r in H. now exists EmptyString, EmptyString.
  - apply orb_true_iff in H. destruct H as [H|H].
    + now exists EmptyString, (String a s).
    + destruct (IH H) as (stem & t & -> & Ht).
      now exists (String a stem), t.
Qed.

(** A name matched by [*] followed by literal characters has, as its last
    character but one, the last character but one of the pattern, up to
    case on a platform that folds it. *)
Lemma pattern_penultimate cs l c1 c2 n :
  match_toks cs (Star :: map Lit (l ++ [c1; c2])) n = true ->
  exists a, penultimate n = Some a /\ chr_eq cs a c1 = true.
Proof.
  intros H. apply match_star_tail in H. destruct H as (stem & t & -> & H).
  apply match_literals_tail in H. destruct H as (stem' & a & b & -> & Ha).
  exists a. split; [|exact Ha].
  rewrite <- append_assoc'. apply penultimate_append.
Qed.

Lemma chr_eq_apart cs a c1 c2 :
  lower_char c1 <> lower_char c2 -> c1 <> c2 ->
  chr_eq cs a c1 = true -> chr_eq cs a c2 = true -> False.
Proof.
  intros Hl Hc. unfold chr_eq. destruct cs; intros H1 H2;
    apply Ascii.eqb_eq in H1; apply Ascii.eqb_eq in H2; congruence.
Qed.

Lemma patterns_apart cs l1 c1 d1 l2 c2 d2 n :
  lower_char c1 <> lower_char c2 -> c1 <> c2 ->
  match_toks cs (Star :: map Lit (l1 ++ [c1; d1])) n = true ->
  match_toks cs (Star :: map Lit (l2 ++ [c2; d2])) n = true -> False.
Proof.
  intros Hl Hc H1 H2.
  apply pattern_penultimate in H1. destruct H1 as (a & Ea & Ha).
  apply pattern_penultimate in H2. destruct H2 as (a' & Ea' & Ha').
  assert (a' = a) by congruence. subst a'.
  exact (chr_eq_apart cs a c1 c2 Hl Hc Ha Ha').
Qed.

Lemma jpg_not_jpeg cs n :
  fnmatch cs "*.jpg" n = true -> fnmatch cs "*.jpeg" n = true -> False.
Proof.
  apply (patterns_apart cs ["."; "j"]%char "p" "g" ["."; "j"; "p"]%char "e" "g");
    discriminate.
Qed.

Lemma jpg_not_png cs n :
  fnmatch cs "*.jpg" n = true -> fnmatch cs "*.png" n = true -> False.
Proof.
  apply (patterns_apart cs ["."; "j"]%char "p" "g" ["."; "p"]%char "n" "g");
    discriminate.
Qed.

Lemma jpeg_not_png cs n :
  fnmatch cs "*.jpeg" n = true -> fnmatch cs "*.png" n = true -> False.
Proof.
  apply (patterns_apart cs ["."; "j"; "p"]%char "e" "g" ["."; "p"]%char "n" "g");
    discriminate.
Qed.

Lemma NoDup_listing dir (f : string -> bool) (l : list string) :
  NoDup l ->
  NoDup (map (fun n => {| parent := dir; name := n |}) (filter f l)).
Proof.
  intros H. apply (NoDup_filter f) in H.
  induction H as [|x xs Hx _ IH]; cbn [map]; constructor; [|exact IH].
  intros Hin. apply in_map_iff in Hin. destruct Hin as (y & Ey & Hy).
  injection Ey as ->. contradiction.
Qed.

Lemma in_listing dir (f : string -> bool) (l : list string) x :
  In x (map (fun n => {| parent := dir; name := n |}) (filter f l)) ->
  f (name x) = true.
Proof.
  intros Hin. apply in_map_iff in Hin. destruct Hin as (y & <- & Hy).
  apply filter_In in Hy. apply Hy.
Qed.

Section Listing.

Context {P : Platform}.

(** X11. No file is enumerated twice: when the directory listing has no
    repeated name, the list built on lines 43-45 has no repeated path, on
    case-sensitive and case-insensitive platforms alike. *)
Theorem enumeration_has_no_duplicates self w :
  NoDup (iterdir (input_dir self) w) ->
  exists files,
    image_files self w = (inr files, w, []) /\ NoDup files.
Proof.
  intros Hnd. exists (enumerated self w). split; [apply image_files_eq|].
  unfold enumerated.
  apply NoDup_app; [now apply NoDup_listing| |].
  - apply NoDup_app; [now apply NoDup_listing|now apply NoDup_listing|].
    intros x H1 H2. apply in_listing in H1. apply in_listing in H2.
    exact (jpeg_not_png _ _ H1 H2).
  - intros x H1 H2. apply in_listing in H1. apply in_app_or in H2.
    destruct H2 as [H2|H2]; apply in_listing in H2.
    + exact (jpg_not_jpeg _ _ H1 H2).
    + exact (jpg_not_png _ _ H1 H2).
Qed.

End Listing.

End ListingFacts.

(** ** The window and its slots *)
Module WindowFacts.

Import PyNum PyStr Worker MainWindow Location Spec Slots Terms.
Import PyNumFacts PyStrFacts WorkerFacts MainWindowFacts.
Import ProgressFacts RunFacts.
Local Open Scope string_scope.
Local Open Scope Z_scope.

Lemma all_chars_lstrip f s :
  all_chars f s = true -> all_chars f (lstrip s) = true.
Proof.
  induction s as [|c r IH]; [reflexivity|]. cbn [lstrip].
  destruct (isspace_char c); [|trivial].
  cbn [all_chars]. intros H. apply andb_true_iff in H. now apply IH.
Qed.

Lemma all_chars_rstrip f s :
  all_chars f s = true -> all_chars f (rstrip s) = true.
Proof.
  induction s as [|c r IH]; [reflexivity|]. cbn [rstrip all_chars].
  intros H. apply andb_true_iff in H. destruct H as [Hc Hr].
  specialize (IH Hr). destruct (rstrip r) as [|c' r'].
  - destruct (isspace_char c); [reflexivity|]. cbn. now rewrite Hc.
  - cbn [all_chars] in *. now rewrite Hc.
Qed.

Lemma all_chars_strip f s :
  all_chars f s = true -> all_chars f (strip s) = true.
Proof. intros H. now apply all_chars_rstrip, all_chars_lstrip. Qed.

Lemma decimal_plain s :
  all_chars isdigit_char s = true -> plain s = true ->
  all_chars isdecimal_char s = true.
Proof.
  unfold plain. induction s as [|c r IH]; [reflexivity|]. cbn [all_chars].
  intros H1 H2. apply andb_true_iff in H1. apply andb_true_iff in H2.
  destruct H1 as [D1 R1], H2 as [D2 R2]. rewrite (IH R1 R2), andb_true_r.
  unfold plain_char in D2. rewrite D1 in D2. exact D2.
Qed.

Lemma decimal_not_space c : isdecimal_char c = true -> isspace_char c = false.
Proof.
  unfold isdecimal_char, isspace_char, in_range. intros H.
  apply andb_true_iff in H. destruct H as [H1 H2].
  apply N.leb_le in H1. apply N.leb_le in H2.
  repeat rewrite orb_false_iff. repeat split.
  - apply andb_false_iff. right. apply N.leb_gt. lia.
  - apply andb_false_iff. right. apply N.leb_gt. lia.
  - apply N.eqb_neq. lia.
  - apply N.eqb_neq. lia.
Qed.

Lemma rstrip_decimal s :
  all_chars isdecimal_char s = true -> rstrip s = s.
Proof.
  induction s as [|c r IH]; [reflexivity|]. cbn [all_chars rstrip].
  intros H. apply andb_true_iff in H. destruct H as [Hc Hr].
  rewrite (IH Hr). destruct r; [|reflexivity].
  now rewrite (decimal_not_space c Hc).
Qed.

Lemma strip_decimal s :
  all_chars isdecimal_char s = true -> strip s = s.
Proof.
  intros H. unfold strip.
  assert (E : lstrip s = s).
  { destruct s as [|c r]; [reflexivity|]. cbn [all_chars lstrip] in *.
    apply andb_true_iff in H. now rewrite (decimal_not_space c (proj1 H)). }
  rewrite E. now apply rstrip_decimal.
Qed.

Ltac by_char c H :=
  destruct c as [[] [] [] [] [] [] [] []];
  try (vm_compute in H; discriminate H).

Lemma literal_tail_step acc c r :
  isdecimal_char c = true ->
  literal_tail acc (String c r) =
  literal_tail (acc * 10 + digit_value c) r.
Proof.
  intros H. cbn [literal_tail]. rewrite H.
  by_char c H; reflexivity.
Qed.

Lemma literal_tail_decimal r : forall acc,
  all_chars isdecimal_char r = true -> 0 <= acc ->
  exists n, literal_tail acc r = Some n /\ 0 <= n.
Proof.
  induction r as [|c r IH]; intros acc H Hacc.
  - now exists acc.
  - cbn [all_chars] in H. apply andb_true_iff in H. destruct H as [Hc Hr].
    rewrite (literal_tail_step acc c r Hc). apply IH; [exact Hr|].
    unfold digit_value. lia.
Qed.

Lemma digit_run_decimal s :
  all_chars isdecimal_char s = true -> digit_run s = s.
Proof.
  induction s as [|c r IH]; [reflexivity|]. cbn [all_chars digit_run].
  intros H. apply andb_true_iff in H. destruct H as [Hc Hr].
  now rewrite Hc, (IH Hr).
Qed.

Lemma count_decimal_length s :
  Z.of_N (count_decimal s) <= Z.of_nat (String.length s).
Proof.
  induction s as [|c r IH]; [reflexivity|].
  cbn [count_decimal String.length]. rewrite Nat2Z.inj_succ.
  destruct (isdecimal_char c); lia.
Qed.

Lemma lstrip_length s : (String.length (lstrip s) <= String.length s)%nat.
Proof.
  induction s as [|c r IH]; [reflexivity|]. cbn [lstrip].
  destruct (isspace_char c); cbn [String.length]; lia.
Qed.

Lemma rstrip_length s : (String.length (rstrip s) <= String.length s)%nat.
Proof.
  induction s as [|c r IH]; [reflexivity|]. cbn [rstrip].
  destruct (rstrip r) as [|c' r'].
  - destruct (isspace_char c); cbn [String.length] in *; lia.
  - cbn [String.length] in *. lia.
Qed.

Lemma strip_length s : (String.length (strip s) <= String.length s)%nat.
Proof.
  unfold strip. pose proof (rstrip_length (lstrip s)).
  pose proof (lstrip_length s). lia.
Qed.

(** [int(s)] of a non-empty text of at most 4300 decimal characters does
    not raise. *)
Lemma int_of_str_decimal s :
  s <> EmptyString -> all_chars isdecimal_char s = true ->
  Z.of_nat (String.length s) <= 4300 ->
  exists n, int_of_str s = inr n /\ 0 <= n.
Proof.
  intros Hne H Hlen. unfold int_of_str. rewrite (strip_decimal s H).
  pose proof (digit_run_decimal s H) as D.
  assert (C : (max_str_digits <? count_decimal s)%N = false).
  { apply N.ltb_ge. pose proof (count_decimal_length s).
    unfold max_str_digits. lia. }
  destruct s as [|c r]; [congruence|].
  cbn [all_chars] in H. apply andb_true_iff in H. destruct H as [Hc Hr].
  destruct (literal_tail_decimal r (digit_value c) Hr) as (n & Hn & Hn0).
  { unfold digit_value. lia. }
  assert (E : literal (String c r) = Some n).
  { cbn [literal]. now rewrite Hc. }
  by_char c Hc; cbv beta iota zeta; rewrite D, E, C; exists n;
    split; trivial.
Qed.

Lemma isdigit_plain s :
  isdigit s = true -> plain s = true ->
  Z.of_nat (String.length s) <= 4300 ->
  exists n, int_of_str s = inr n /\ 0 <= n.
Proof.
  intros Hd Hp Hlen. apply int_of_str_decimal; [| |exact Hlen].
  - intros ->. discriminate.
  - apply decimal_plain; [|exact Hp]. now destruct s.
Qed.

Section Window.

Context {P : Platform}.

(** X14. With size and quality texts of at most 4300 characters each, taken
    from U+0000 to U+00FF and free of the superscript digits,
    [start_conversion] never raises: every text that passes [isdigit] is
    then accepted by [int], and the slot returns with the window it
    leaves. *)
Theorem plain_text_never_raises self w :
  plain (size_line self) = true -> plain (quality_line self) = true ->
  Z.of_nat (String.length (size_line self)) <= 4300 ->
  Z.of_nat (String.length (quality_line self)) <= 4300 ->
  exists self', start_conversion self w = inr self'.
Proof.
  intros Hs Hq Ls Lq.
  apply all_chars_strip in Hs. apply all_chars_strip in Hq.
  fold (plain (strip (size_line self))) in Hs.
  fold (plain (strip (quality_line self))) in Hq.
  pose proof (strip_length (size_line self)) as Ls'.
  pose proof (strip_length (quality_line self)) as Lq'.
  unfold start_conversion.
  destruct (_ || _); [eexists; reflexivity|].
  destruct (_ && _); [eexists; reflexivity|].
  destruct (isdigit (strip (size_line self))) eqn:Ds; cbn [negb];
    [|eexists; reflexivity].
  destruct (isdigit_plain _ Ds Hs ltac:(lia)) as (n & -> & _).
  destruct (n <=? 0); [eexists; reflexivity|].
  destruct (isdigit (strip (quality_line self))) eqn:Dq; cbn [negb];
    [|eexists; reflexivity].
  destruct (isdigit_plain _ Dq Hq ltac:(lia)) as (q & -> & _).
  destruct (negb ((1 <=? q) && (q <=? 95))); eexists; reflexivity.
Qed.

(** X17. A job started from the window finds its folders in place: when
    [start_conversion] has started a worker (the log window is then empty),
    the worker holds the stripped texts of the window, and a run in the same
    state of the world passes the directory check without calling [mkdir],
    so that no critical error can come from it. *)
Theorem started_job_is_prepared self w self' :
  (forall d, isdir d w = true -> path_exists d w = true) ->
  start_conversion self w = inr self' -> log_text self' = [] ->
  exists cfg,
    worker self' = Some cfg /\
    Worker.input_dir cfg = strip (input_line self) /\
    Worker.output_dir cfg = strip (output_line self) /\
    Worker.overwrite cfg = overwrite_cb self /\
    int_of_str (strip (size_line self)) = inr (Worker.target_size cfg) /\
    int_of_str (strip (quality_line self)) = inr (Worker.jpeg_quality cfg) /\
    ensure_output_dir cfg (output_path_of cfg) w = (inr tt, w, []) /\
    (forall d, ~ In (MkDir d) (events (run cfg) w)).
Proof.
  intros Hdir. unfold start_conversion.
  assert (Hrej : forall line, log_text (log_append self line) <> []).
  { intros line. cbn. now destruct (log_text self). }
  destruct (is_empty (strip (input_line self)) ||
            negb (isdir (strip (input_line self)) w)) eqn:E1.
  { intros [= <-] H. now apply Hrej in H. }
  destruct (negb (overwrite_cb self) &&
            (is_empty (strip (output_line self)) ||
             negb (isdir (strip (output_line self)) w))) eqn:E2.
  { intros [= <-] H. now apply Hrej in H. }
  destruct (negb (isdigit (strip (size_line self)))).
  { intros [= <-] H. now apply Hrej in H. }
  destruct (int_of_str (strip (size_line self))) as [e|n]; [discriminate|].
  destruct (n <=? 0).
  { intros [= <-] H. now apply Hrej in H. }
  destruct (negb (isdigit (strip (quality_line self)))).
  { intros [= <-] H. now apply Hrej in H. }
  destruct (int_of_str (strip (quality_line self))) as [e|q]; [discriminate|].
  destruct (negb ((1 <=? q) && (q <=? 95))).
  { intros [= <-] H. now apply Hrej in H. }
  intros [= <-] _. eexists. split; [reflexivity|]. cbn [Worker.input_dir
    Worker.output_dir Worker.overwrite Worker.target_size Worker.jpeg_quality].
  repeat (split; [reflexivity|]).
  match goal with |- ensure_output_dir ?c _ _ = _ /\ _ => set (cfg := c) end.
  assert (He : ensure_output_dir cfg (output_path_of cfg) w = (inr tt, w, [])).
  { rewrite ensure_output_dir_eq. subst cfg. cbn [Worker.overwrite Worker.output_dir].
    destruct (overwrite_cb self); [reflexivity|]. cbn [negb andb] in *.
    apply orb_false_iff in E2. destruct E2 as [_ E2].
    apply negb_false_iff in E2. now rewrite (Hdir _ E2). }
  split; [exact He|].
  intros d Hin.
  destruct (run_events cfg w) as (w1 & rest & Hev & Hrest).
  rewrite Hev in Hin. unfold events at 1 in Hin. rewrite He in Hin.
  cbn [snd app] in Hin. rewrite Forall_forall in Hrest.
  exact (Hrest _ Hin).
Qed.

Lemma deliver_app (self : MainWindow) (a b : list event) :
  deliver self (a ++ b) = deliver (deliver self a) b.
Proof. apply fold_left_app. Qed.

Lemma deliver_log (t : list event) : forall self,
  log_text (deliver self t) = (log_text self ++ log_lines t)%list.
Proof.
  induction t as [|e t IH]; intros self; cbn [deliver fold_left log_lines].
  - now rewrite app_nil_r.
  - fold (deliver (slot self e) t). rewrite IH.
    destruct e; cbn [slot log_lines]; try reflexivity.
    + unfold setValue. now destruct (_ && _).
    + cbn. now rewrite <- app_assoc.
Qed.

Lemma deliver_button (t : list event) : forall self,
  ~ In Finished t ->
  start_btn_enabled (deliver self t) = start_btn_enabled self.
Proof.
  induction t as [|e t IH]; intros self Hn; [reflexivity|].
  cbn [deliver fold_left]. fold (deliver (slot self e) t).
  rewrite IH by (intros H; apply Hn; now right).
  destruct e; cbn [slot]; try reflexivity.
  - unfold setValue. now destruct (_ && _).
  - exfalso. apply Hn. now left.
Qed.

Lemma deliver_bar (t : list event) : forall self,
  Forall (fun p => 0 <= p <= 100) (progress_values t) ->
  progress_bar (deliver self t) = last (progress_values t) (progress_bar self).
Proof.
  induction t as [|e t IH]; intros self Hr; [reflexivity|].
  cbn [deliver fold_left]. fold (deliver (slot self e) t).
  destruct e as [v| | | |]; cbn [progress_values] in *;
    try (rewrite (IH _ Hr); reflexivity).
  inversion Hr as [|? ? Hp Hr']; subst.
  rewrite (IH _ Hr'). cbn [slot]. unfold setValue.
  destruct (Z.leb_spec 0 v); [|lia].
  destruct (Z.leb_spec v 100); [|lia]. cbn [andb progress_bar].
  destruct (progress_values t) as [|z l]; [reflexivity|].
  change (last (v :: z :: l) (progress_bar self))
    with (last (z :: l) (progress_bar self)).
  apply last_nonempty. discriminate.
Qed.

Lemma deliver_fields (t : list event) : forall self,
  input_line (deliver self t) = input_line self /\
  output_line (deliver self t) = output_line self /\
  size_line (deliver self t) = size_line self /\
  quality_line (deliver self t) = quality_line self /\
  overwrite_cb (deliver self t) = overwrite_cb self /\
  worker (deliver self t) = worker self.
Proof.
  induction t as [|e t IH]; intros self; [repeat split|].
  cbn [deliver fold_left]. fold (deliver (slot self e) t).
  destruct (IH (slot self e)) as (-> & -> & -> & -> & -> & ->).
  destruct e; cbn [slot]; repeat split; unfold setValue;
    now destruct (_ && _).
Qed.

(** X15. Delivering the signals of a run to the window: the log window
    gains exactly the log lines of the run, in order; the START button is
    enabled at the end, and it is not touched before every log line and
    progress value has arrived; the input widgets are never changed. *)
Theorem window_after_run (self : MainWindow) cfg w :
  let t := events (run cfg) w in
  start_btn_enabled (deliver self t) = true /\
  log_text (deliver self t) = (log_text self ++ log_lines t)%list /\
  (forall t1 e t2,
     t = (t1 ++ e :: t2)%list -> e <> Finished ->
     start_btn_enabled (deliver self t1) = start_btn_enabled self) /\
  input_line (deliver self t) = input_line self /\
  output_line (deliver self t) = output_line self /\
  size_line (deliver self t) = size_line self /\
  quality_line (deliver self t) = quality_line self /\
  overwrite_cb (deliver self t) = overwrite_cb self.
Proof.
  intros t.
  destruct (run_trace_repeat cfg w) as (w' & body & Hb & Hr).
  assert (Ht : t = (body ++ repeat Finished (completions cfg w))%list)
    by (unfold t, events; now rewrite Hr).
  assert (Hc : (exists k, completions cfg w = S k)).
  { unfold completions. destruct (fst (fst _)); [now exists 0%nat|].
    destruct (enumerated _ _); [now exists 1%nat|now exists 0%nat]. }
  destruct Hc as [k Hk]. rewrite Hk in Ht.
  split; [|split; [apply deliver_log|split]].
  - rewrite Ht. replace (S k) with (k + 1)%nat by lia.
    rewrite repeat_app, app_assoc, deliver_app. reflexivity.
  - intros t1 e t2 E Hne. apply deliver_button. intros Hin.
    rewrite Ht in E. clear - E Hne Hin Hb.
    revert t1 E Hin. induction body as [|x body IH]; intros t1 E Hin.
    + cbn [app] in E. destruct t1 as [|y t1].
      * cbn in E. injection E as E _. congruence.
      * assert (Hall : Forall (eq Finished) ((y :: t1) ++ e :: t2)).
        { rewrite <- E. apply Forall_forall. intros z Hz.
          now apply repeat_spec in Hz. }
        apply Forall_app in Hall. destruct Hall as [_ Hall].
        inversion Hall. congruence.
    + destruct t1 as [|y t1]; [contradiction|].
      cbn [app] in E. injection E as <- E.
      destruct Hin as [Hin|Hin].
      * apply Hb. now left.
      * apply (IH (fun H => Hb (or_intror H)) t1 E Hin).
  - destruct (deliver_fields t self) as (-> & -> & -> & -> & -> & _).
    repeat split.
Qed.

(** X16. After a run over [n] images, [0 < n < 2^44], the progress bar
    shows 100, whatever it showed before and whatever happened to the
    files. *)
Theorem bar_full_after_run (self : MainWindow) cfg w w1 t1 :
  ensure_output_dir cfg (output_path_of cfg) w = (inr tt, w1, t1) ->
  0 < Z.of_nat (List.length (enumerated cfg w1)) < 2 ^ 44 ->
  progress_bar (deliver self (events (run cfg) w)) = 100.
Proof.
  intros He Hlen.
  rewrite deliver_bar by exact (run_progress_range cfg w w1 t1 He Hlen).
  exact (proj2 (run_progress_last cfg w w1 t1 _ He Hlen)).
Qed.

End Window.

End WindowFacts.

(** ** Further runs on the simulated platform *)
Module MoreRuns.

Import PyNum PyStr Worker MainWindow Location Spec Slots Terms.
Import PyNumFacts PyStrFacts WorkerFacts MainWindowFacts.
Import ScalingFacts ProgressFacts ProcessFacts RunFacts ListingFacts WindowFacts.
Import Sim Runs Scenes.
Local Open Scope string_scope.
Local Open Scope Z_scope.

Lemma output_never_larger_witness :
  let w := Sim.folder "in" [("a.jpg", Sim.rgb 4000 3000)] in
  let r := process_image (P := Sim.platform) (demo true 1920) None
             (at_in "a.jpg") w in
  exists out dest fmt quality,
    snd r = [Save out dest fmt quality true; Log "Processed: a.jpg"] /\
    fst (im_size out) <= 4000 /\ snd (im_size out) <= 3000.
Proof.
  intros w r.
  apply (output_never_larger (P := Sim.platform) (L := sim_pillow)
           (demo true 1920) None (at_in "a.jpg") w (snd (fst r)) (snd r)
           {| Sim.px_size := (4000, 3000); Sim.px_mode := "RGB" |}).
  - cbn. lia.
  - reflexivity.
  - reflexivity.
Defined.

Lemma progress_never_decreases_witness :
  Sorted Z.le
    (progress_values
       (events (run (P := Sim.platform) (demo false 1920)) mixed_folder)).
Proof.
  apply (progress_never_decreases (P := Sim.platform) (demo false 1920)
           mixed_folder).
  cbn. lia.
Defined.

Lemma progress_reaches_100_witness :
  let self := demo false 1920 in
  let prepared :=
    ensure_output_dir (P := Sim.platform) self (output_path_of self)
      mixed_folder in
  let ps := progress_values (events (run self) mixed_folder) in
  List.length ps = List.length (enumerated self (snd (fst prepared))) /\
  Forall (fun p => 0 <= p <= 100) ps /\
  last ps 0 = 100.
Proof.
  intros self prepared ps.
  apply (progress_reaches_100 (P := Sim.platform) self mixed_folder
           (snd (fst prepared)) (snd prepared)).
  - reflexivity.
  - cbn. lia.
Defined.

Lemma mkdir_failure_is_critical_witness :
  run (P := read_only) (demo false 1920) mixed_folder =
  (inr tt, mixed_folder,
   [MkDir "out";
    Log ("Critical error: " ++ "[Errno 13] Permission denied: 'out'");
    Finished]).
Proof.
  apply (mkdir_failure_is_critical (P := read_only) (demo false 1920)
           mixed_folder
           (PyExc "PermissionError" "[Errno 13] Permission denied: 'out'")
           mixed_folder); reflexivity.
Defined.


Lemma saves_go_to_their_destination_witness :
  let self := demo false 1920 in
  let w : world (Platform := Sim.platform) :=
    Sim.folder "in" [("b.png", Sim.rgb 100 50)] in
  let dest := {| parent := "out"; name := "b.png" |} in
  In (name dest) (iterdir (input_dir self) (prepared_world self w)) /\
  parent dest = (if overwrite self then input_dir self else output_dir self) /\
  true = true /\
  None = match PNG with JPEG => Some (jpeg_quality self) | PNG => None end.
Proof.
  intros self w dest.
  apply (saves_go_to_their_destination (P := Sim.platform) self w
           {| Sim.px_size := (100, 50); Sim.px_mode := "RGB" |}
           dest PNG None true).
  cbn. right. left. reflexivity.
Defined.

Lemma overwrite_ignores_destination_witness :
  let self := demo true 1920 in
  run (P := Sim.platform) (with_output_dir self "elsewhere") mixed_folder =
    run self mixed_folder /\
  (forall img dest fmt quality optimize,
     In (Save img dest fmt quality optimize) (events (run self) mixed_folder) ->
     In dest (enumerated self mixed_folder)).
Proof.
  intros self.
  apply (overwrite_ignores_destination (P := Sim.platform) self "elsewhere"
           mixed_folder).
  reflexivity.
Defined.

Lemma enumeration_has_no_duplicates_witness :
  exists files,
    image_files (P := Sim.platform) (demo true 1920) mixed_folder =
      (inr files, mixed_folder, []) /\
    NoDup files.
Proof.
  apply (enumeration_has_no_duplicates (P := Sim.platform) (demo true 1920)
           mixed_folder).
  cbn. repeat constructor; cbn; intuition discriminate.
Defined.

Lemma encoder_follows_suffix_witness :
  let w := Sim.folder "in" [("a.jpg", Sim.rgb 4000 3000)] in
  let r := process_image (P := Sim.platform) (demo true 1920) None
             (at_in "a.jpg") w in
  exists img scaled out dest,
    Image_open (at_in "a.jpg") w = inr img /\
    resized (demo true 1920) (im_clear_info img) = inr scaled /\
    save_path_of (demo true 1920) None (at_in "a.jpg") = inr dest /\
    name dest = "a.jpg" /\
    snd r = [Save out dest JPEG (Some 80) true; Log "Processed: a.jpg"] /\
    im_save out dest JPEG (Some 80) true w = (inr tt, snd (fst r)) /\
    flatten (im_clear_info scaled) w = (inr out, w, []).
Proof.
  intros w r.
  apply (encoder_follows_suffix (P := Sim.platform) (demo true 1920) None
           (at_in "a.jpg") w (snd (fst r)) (snd r)).
  reflexivity.
Defined.

Lemma start_conversion_outcomes_witness :
  let self := filled " in" "out " false in
  let w : world (Platform := Sim.platform) :=
    {| Sim.dirs := ["in"; "out"]; Sim.files := [] |} in
  let self' := returned (start_conversion self w) self in
  (exists line, In line rejections /\ self' = log_append self line) \/
  (exists cfg,
     worker self' = Some cfg /\
     start_btn_enabled self' = false /\ log_text self' = [] /\
     isdir (Worker.input_dir cfg) w = true /\
     (Worker.overwrite cfg = false -> isdir (Worker.output_dir cfg) w = true) /\
     1 <= Worker.target_size cfg /\
     1 <= Worker.jpeg_quality cfg <= 95).
Proof.
  intros self w self'.
  apply (start_conversion_outcomes (P := Sim.platform) self w self').
  reflexivity.
Defined.

Lemma plain_text_never_raises_witness :
  exists self',
    start_conversion (P := Sim.platform) (filled "in" "out" true) mixed_folder
    = inr self'.
Proof.
  apply (plain_text_never_raises (P := Sim.platform) (filled "in" "out" true)
           mixed_folder); [reflexivity|reflexivity|cbn; lia|cbn; lia].
Defined.

(** The bound of 4300 characters cannot be dropped: a size text of 4301
    digits passes [isdigit], and [int] raises on it. *)
Example long_size_text_raises :
  let text := String.concat EmptyString (repeat "1" 4301) in
  let self :=
    {| input_line := "in"; output_line := "out"; size_line := text;
       quality_line := "80"; overwrite_cb := true; start_btn_enabled := true;
       progress_bar := 0; log_text := []; worker := None |} in
  plain text = true /\
  start_conversion (P := Sim.platform) self mixed_folder =
  inl (PyExc "ValueError"
         ("Exceeds the limit (4300 digits) for integer string conversion: "
          ++ "value has 4301 digits; "
          ++ "use sys.set_int_max_str_digits() to increase the limit")).
Proof. vm_compute. split; reflexivity. Qed.

Lemma bar_full_after_run_witness :
  progress_bar
    (deliver (filled "in" "out" false)
       (events (run (P := Sim.platform) (demo false 1920)) mixed_folder))
  = 100.
Proof.
  apply (bar_full_after_run (P := Sim.platform) (filled "in" "out" false)
           (demo false 1920) mixed_folder
           (snd (fst (ensure_output_dir (P := Sim.platform) (demo false 1920)
                        (output_path_of (demo false 1920)) mixed_folder)))
           (snd (ensure_output_dir (P := Sim.platform) (demo false 1920)
                   (output_path_of (demo false 1920)) mixed_folder))).
  - reflexivity.
  - cbn. lia.
Defined.

Lemma started_job_is_prepared_witness :
  let self := filled " in" "out " false in
  let w : world (Platform := Sim.platform) :=
    {| Sim.dirs := ["in"; "out"]; Sim.files := [] |} in
  let self' := returned (start_conversion self w) self in
  exists cfg,
    worker self' = Some cfg /\
    Worker.input_dir cfg = "in" /\
    Worker.output_dir cfg = "out" /\
    Worker.overwrite cfg = false /\
    int_of_str "1920" = inr (Worker.target_size cfg) /\
    int_of_str "80" = inr (Worker.jpeg_quality cfg) /\
    ensure_output_dir cfg (output_path_of cfg) w = (inr tt, w, []) /\
    (forall d, ~ In (MkDir d) (events (run cfg) w)).
Proof.
  intros self w self'.
  apply (started_job_is_prepared (P := Sim.platform) self w self').
  - intros d H. exact H.
  - reflexivity.
  - reflexivity.
Defined.

End MoreRuns.
